(** * Graph Space: the permutation action and the quotient metric

    A shallow embedding of [geomstats/stratified_geometry/graphspace.py]:
    the classes [Graph], [GraphSpace] and [GraphSpaceGeometry], with the
    decorators that normalise [Graph] points to arrays.

    Adjacency matrices are matrices of reals.  A Python exception is an
    explicit [Raise] result; the [print] calls of [dist] write to the
    standard output only and are left out. *)

From Stdlib Require Import String List Arith Bool Lia Reals Lra.
From Stdlib Require Import Permutation.
Import ListNotations.

Open Scope string_scope.
Open Scope R_scope.

(** ** Exceptions and results *)

Inductive exn : Type :=
| ValueError (msg : string)
| IndexError
| UnboundLocalError (var : string).

Inductive result (A : Type) : Type :=
| Ok (a : A)
| Raise (e : exn).

Arguments Ok {A} & a.
Arguments Raise {A} e.

Definition bind {A B : Type} (r : result A) (k : A -> result B) : result B :=
  match r with
  | Ok a => k a
  | Raise e => Raise e
  end.

Arguments bind {A B} & r k.

Notation "x <- r ;; k" := (bind r (fun x => k))
  (at level 61, r at next level, right associativity).

(** A list comprehension whose body may raise: left to right, the first
    exception wins. *)
Fixpoint comprehension {A B : Type} (f : A -> result B) (l : list A)
  : result (list B) :=
  match l with
  | [] => Ok []
  | a :: rest =>
      b <- f a ;;
      bs <- comprehension f rest ;;
      Ok (b :: bs)
  end.

(** ** Arrays *)

Definition matrix : Type := list (list R).

(** An array argument is a single matrix (two axes) or a batch of matrices
    (three axes). *)
Inductive ndarray : Type :=
| Rank2 (m : matrix)
| Rank3 (ms : list matrix).

Definition ndim (a : ndarray) : nat :=
  match a with
  | Rank2 _ => 2
  | Rank3 _ => 3
  end.

(** [len(a)]: the size of the first axis. *)
Definition len (a : ndarray) : nat :=
  match a with
  | Rank2 m => length m
  | Rank3 ms => length ms
  end.

(** The backend can also hand back [gs.array([])], the array with a single
    axis of size zero: it is what [gs.array] makes of an empty Python list.
    It is no argument of the methods modelled here, whose arrays have two or
    three axes, but [permute] can return it and the metric then receives
    it. *)
Inductive tensor : Type :=
| Nd (a : ndarray)
| Rank1Empty.

Coercion Nd : ndarray >-> tensor.

(** Modelled from the spec: [gs.array] on a Python list of matrices, which
    is not among the sources: the stacked batch of the matrices; on the empty
    list the backend gives the array with one axis of size zero. *)
Definition gs_array (l : list matrix) : tensor :=
  match l with
  | [] => Rank1Empty
  | _ :: _ => Nd (Rank3 l)
  end.

(** Modelled from the spec: [gs.stack] on a Python list of matrices, which
    is not among the sources: the stacked batch, whose items are the
    matrices in order; the backend raises on the empty list. *)
Definition gs_stack (l : list matrix) : result (list matrix) :=
  match l with
  | [] => Raise (ValueError "need at least one array to stack")
  | _ :: _ => Ok l
  end.

Definition n_rows (A : matrix) : nat := length A.
Definition n_cols (A : matrix) : nat := length (hd [] A).

Definition entry (A : matrix) (i j : nat) : R := nth j (nth i A []) 0.

Definition build_matrix (r c : nat) (f : nat -> nat -> R) : matrix :=
  map (fun i => map (f i) (seq 0 c)) (seq 0 r).

(** [sum_upto n f] is f 0 + ... + f (n-1). *)
Fixpoint sum_upto (n : nat) (f : nat -> R) : R :=
  match n with
  | O => 0
  | S k => sum_upto k f + f k
  end.

Fixpoint sum_list (l : list R) : R :=
  match l with
  | [] => 0
  | x :: rest => x + sum_list rest
  end.

(** ** The array backend ([geomstats.backend], imported as [gs]) *)

(** Modelled from the spec: [gs.matmul], the backend's matrix product, which
    is not among the sources; the spec names it as the product behind the
    total space's multiply. *)
Definition matmul (A B : matrix) : matrix :=
  build_matrix (n_rows A) (n_cols B)
    (fun i j => sum_upto (n_cols A) (fun k => entry A i k * entry B k j)).

(** Modelled from the spec: [gs.transpose] of a matrix, missing from the
    sources; the spec writes it as the transposed permutation matrix. *)
Definition transpose (A : matrix) : matrix :=
  build_matrix (n_cols A) (n_rows A) (fun i j => entry A j i).

(** [gs.ones(n, dtype)]: n ones of the graph's element type. *)
Definition ones (n : nat) : list R := repeat 1 n.

(** Modelled from the spec: [gs.array_from_sparse], missing from the sources;
    the spec has it build the matrix by scattering the data entries at the
    given coordinates, every other entry being zero. *)
Definition array_from_sparse (data : list R) (indices : list (nat * nat))
    (target_shape : nat * nat) : matrix :=
  build_matrix (fst target_shape) (snd target_shape)
    (fun i j =>
       sum_list
         (map (fun di : R * (nat * nat) =>
                 if (fst (snd di) =? i)%nat && (snd (snd di) =? j)%nat
                 then fst di else 0)
              (combine data indices))).

(** [list(range(n))] and [zip]. *)
Definition range (n : nat) : list nat := seq 0 n.
Definition zip {A B : Type} (l : list A) (l' : list B) : list (A * B) :=
  combine l l'.

(** ** Points of the space *)

(** [Graph]: an adjacency matrix with an optional label. *)
Record Graph : Type := { adj : matrix; p : option (list R) }.

(** What a decorated method accepts as its graph argument: an array, one
    [Graph], or a list of [Graph]s.  The list is not empty: of the empty
    list [gs.array] makes an array with one axis, which is none of the
    arrays with two or three axes that the methods are modelled on. *)
Inductive points : Type :=
| Array (a : ndarray)
| Point (g : Graph)
| PointList (first : Graph) (rest : list Graph).

(** The branch shared by [_graph_vectorize] and [_input_manipulation]: an
    array is passed through, a [Graph] gives its adjacency matrix, a list
    of [Graph]s the stacked batch of theirs. *)
Definition _input_manipulation (arg : points) : ndarray :=
  match arg with
  | Array a => a
  | Point g => Rank2 (adj g)
  | PointList first rest => Rank3 (adj first :: map adj rest)
  end.

(** [l[i]] on a Python list or along the first axis of an array. *)
Definition getitem {A : Type} (l : list A) (i : nat) : result A :=
  match nth_error l i with
  | Some a => Ok a
  | None => Raise IndexError
  end.

(** The permutation argument has the batch axes of the graphs it goes with
    (the docstring's shape=[..., n] against shape=[..., n, n]): one
    permutation for a single graph, a list of them for a batch. *)
Definition permutation_arg (graphs : ndarray) : Type :=
  match graphs with
  | Rank2 _ => list nat
  | Rank3 _ => list (list nat)
  end.

(** A truth value or a vector of truth values, as [belongs] returns. *)
Inductive bools : Type :=
| BoolScalar (b : bool)
| BoolVector (bs : list bool).

(** A distance or a vector of distances, as the metric returns. *)
Inductive distances : Type :=
| Scalar (d : R)
| Vector (ds : list R).

(** ** The collaborators handed to the constructors *)

(** The total space: what [GraphSpace] calls on [self.total_space]. *)
Module TotalSpace.
Record t : Type := {
  belongs : ndarray -> R -> result bools;
  mul : matrix -> matrix -> matrix -> result matrix
}.
End TotalSpace.

(** The metric of the total space: what [GraphSpaceGeometry] calls on
    [self.total_space_metric]. *)
Module Metric.
Record t (curve : Type) : Type := {
  dist : tensor -> tensor -> result distances;
  geodesic : tensor -> tensor -> result curve
}.
Arguments dist {curve} _ _ _.
Arguments geodesic {curve} _ _ _.
End Metric.

(** Modelled from the spec: the class [Matrices] of
    [geomstats.geometry.matrices], the default total space, which is not among
    the sources.  The spec gives its membership test as the shape check
    (symmetry is not required) and its multiply as the associative
    three-argument product A.B.C. *)
Module Matrices.
Definition has_shape (m n : nat) (A : matrix) : bool :=
  (length A =? m)%nat && forallb (fun row => (length row =? n)%nat) A.

Definition belongs (m n : nat) (point : ndarray) (atol : R) : result bools :=
  match point with
  | Rank2 A => Ok (BoolScalar (has_shape m n A))
  | Rank3 As => Ok (BoolVector (map (has_shape m n) As))
  end.

Definition mul (A B C : matrix) : result matrix :=
  Ok (matmul (matmul A B) C).

Definition init (m n : nat) : TotalSpace.t :=
  {| TotalSpace.belongs := belongs m n; TotalSpace.mul := mul |}.
End Matrices.

(** Modelled from the spec: the class [MatricesMetric] of
    [geomstats.geometry.matrices], the default metric, which is not among the
    sources.  The spec gives it as the Frobenius metric of the ambient matrix
    space, with a distance that is a scalar or a batch and a geodesic that
    yields interpolated points. *)
Module MatricesMetric.
Definition flat (A : matrix) : list R := concat A.

Definition frobenius_dist (A B : matrix) : R :=
  sqrt (sum_list (map (fun xy : R * R => (snd xy - fst xy) * (snd xy - fst xy))
                      (combine (flat A) (flat B)))).

(** One value for two single matrices, one value per matrix when an
    argument is a batch; nothing for the array with one axis. *)
Definition broadcast {T : Type} (f : matrix -> matrix -> T)
    (a b : tensor) : result (T + list T) :=
  match a, b with
  | Nd (Rank2 A), Nd (Rank2 B) => Ok (inl (f A B))
  | Nd (Rank2 A), Nd (Rank3 Bs) => Ok (inr (map (f A) Bs))
  | Nd (Rank3 As), Nd (Rank2 B) => Ok (inr (map (fun A => f A B) As))
  | Nd (Rank3 As), Nd (Rank3 Bs) =>
      if (length As =? length Bs)%nat
      then Ok (inr (map (fun AB : matrix * matrix => f (fst AB) (snd AB))
                        (combine As Bs)))
      else Raise (ValueError "operands could not be broadcast together")
  | Rank1Empty, _ | _, Rank1Empty =>
      Raise (ValueError "operands could not be broadcast together")
  end.

Definition dist (m n : nat) (point_a point_b : tensor) : result distances :=
  r <- broadcast frobenius_dist point_a point_b ;;
  Ok (match r with inl d => Scalar d | inr ds => Vector ds end).

Definition interpolate (t : R) (A B : matrix) : matrix :=
  map (fun rows : list R * list R =>
         map (fun xy : R * R => fst xy + t * (snd xy - fst xy))
             (combine (fst rows) (snd rows)))
      (combine A B).

Definition geodesic (m n : nat) (initial_point end_point : tensor)
  : result (R -> result ndarray) :=
  Ok (fun t =>
        r <- broadcast (interpolate t) initial_point end_point ;;
        Ok (match r with inl A => Rank2 A | inr As => Rank3 As end)).

Definition init (m n : nat) : Metric.t (R -> result ndarray) :=
  {| Metric.dist := dist m n; Metric.geodesic := geodesic m n |}.
End MatricesMetric.

(** ** [GraphSpace] *)

Module GraphSpace.
Record t : Type := { nodes : nat; total_space : TotalSpace.t }.

(** [__init__(self, nodes, total_space=Matrices)]. *)
Definition init (nodes : nat) (total_space : nat -> nat -> TotalSpace.t) : t :=
  {| nodes := nodes; total_space := total_space nodes nodes |}.

(** [belongs], under [_graph_vectorize]. *)
Definition belongs (self : t) (graphs : points) (atol : R) : result bools :=
  TotalSpace.belongs (total_space self) (_input_manipulation graphs) atol.

(** [set_to_array], under [_graph_vectorize]. *)
Definition set_to_array (self : t) (points : points) : ndarray :=
  _input_manipulation points.

(** The test that guards the unchanged-graph branch of [permute]:
    [gs.all(gs.array(nodes) == gs.array(p))], the scalar [nodes] compared
    with every entry of [p]. *)
Definition all_equal_nodes (nodes : nat) (p : list nat) : bool :=
  forallb (fun x => (nodes =? x)%nat) p.

(** The matrix built in the other branch: ones scattered at
    [zip(range(nodes), p)]. *)
Definition permutation_matrix (nodes : nat) (p : list nat) : matrix :=
  array_from_sparse (ones nodes) (zip (range nodes) p) (nodes, nodes).

(** The loop [for i, p in enumerate(permutation)] of [permute], from
    index [i] on; the value is the list [result]. *)
Fixpoint permute_loop (self : t) (graph_to_permute : list matrix) (i : nat)
    (permutation : list (list nat)) : result (list matrix) :=
  match permutation with
  | [] => Ok []
  | p :: rest =>
      item <-
        (if all_equal_nodes (nodes self) p
         then getitem graph_to_permute i
         else
           graph <- getitem graph_to_permute i ;;
           let permutation_matrix := permutation_matrix (nodes self) p in
           TotalSpace.mul (total_space self)
             permutation_matrix graph (transpose permutation_matrix)) ;;
      result <- permute_loop self graph_to_permute (S i) rest ;;
      Ok (item :: result)
  end.

(** [permute], under [_graph_vectorize]. *)
Definition permute (self : t) (graph_to_permute : points)
  : permutation_arg (_input_manipulation graph_to_permute) -> result tensor :=
  match _input_manipulation graph_to_permute as a
        return permutation_arg a -> result tensor with
  | Rank2 graph =>
      (* single_graph: both arguments are wrapped in a one-element list *)
      fun permutation =>
        result <- permute_loop self [graph] 0 [permutation] ;;
        first <- getitem result 0 ;;
        Ok (Nd (Rank2 first))
  | Rank3 graphs =>
      fun permutation =>
        result <- permute_loop self graphs 0 permutation ;;
        Ok (gs_array result)
  end.
End GraphSpace.

(** ** [GraphSpaceGeometry] *)

Module GraphSpaceGeometry.
Record t (curve : Type) : Type := {
  space : GraphSpace.t;
  total_space_metric : Metric.t curve
}.
Arguments space {curve} _.
Arguments total_space_metric {curve} _.

(** [__init__(self, space, total_space_metric=MatricesMetric)]. *)
Definition init {curve : Type} (space : GraphSpace.t)
    (total_space_metric : nat -> nat -> Metric.t curve) : t curve :=
  {| space := space;
     total_space_metric :=
       total_space_metric (GraphSpace.nodes space) (GraphSpace.nodes space) |}.

Definition nodes {curve : Type} (self : t curve) : nat :=
  GraphSpace.nodes (space self).

Section Matching.
(** [gs.linalg.quadratic_assignment(x, y, options={"maximize": ...})],
    the external solver: it returns a permutation or raises. *)
Variable quadratic_assignment : matrix -> matrix -> bool -> result (list nat).
Context {curve : Type}.

(** [faq_matching]; with two or three axes on each side the tests
    [l_base == l_obj == 3], [l_base == l_obj == 2] and [l_base < l_obj]
    are the first three cases, and the [raise] is the last. *)
Definition faq_matching (base_graph graph_to_permute : ndarray)
  : result (permutation_arg graph_to_permute) :=
  match base_graph, graph_to_permute
        return result (permutation_arg graph_to_permute) with
  | Rank3 bases, Rank3 graphs =>
      comprehension
        (fun xy : matrix * matrix =>
           quadratic_assignment (fst xy) (snd xy) true)
        (zip bases graphs)
  | Rank2 base, Rank2 graph => quadratic_assignment base graph true
  | Rank2 base, Rank3 graphs =>
      stacked <- gs_stack (repeat base (len (Rank3 graphs))) ;;
      comprehension
        (fun xy : matrix * matrix =>
           quadratic_assignment (fst xy) (snd xy) true)
        (zip stacked graphs)
  | Rank3 _, Rank2 _ =>
      Raise (ValueError
        "Align a set of graphs to one graphs,Pass the single graphs as base_graph")
  end.

(** [id_matching]; the tests [l_base == l_obj == 3 or l_base < l_obj]
    and [l_base == l_obj == 2], then the [raise]. *)
Definition id_matching (self : t curve) (base_graph graph_to_permute : ndarray)
  : result (permutation_arg graph_to_permute) :=
  match base_graph, graph_to_permute
        return result (permutation_arg graph_to_permute) with
  | Rank3 _, Rank3 graphs
  | Rank2 _, Rank3 graphs =>
      Ok (repeat (range (nodes self)) (len (Rank3 graphs)))
  | Rank2 _, Rank2 _ => Ok (range (nodes self))
  | Rank3 _, Rank2 _ =>
      Raise (ValueError
        "The method can align a set of graphs to one graphs,but the single graphs should be passed as base_graph")
  end.

(** The local variable [perm] of [dist] and [geodesic] after the two
    [if matcher == ...] statements: bound, or still unbound. *)
Definition select_matcher (self : t curve) (matcher : string)
    (base_graph graph_to_permute : ndarray)
  : result (option (permutation_arg graph_to_permute)) :=
  perm <- (if matcher =? "FAQ"
           then perm <- faq_matching base_graph graph_to_permute ;; Ok (Some perm)
           else Ok None) ;;
  if matcher =? "ID"
  then perm <- id_matching self base_graph graph_to_permute ;; Ok (Some perm)
  else Ok perm.

(** Reading the local variable [perm]. *)
Definition read_perm {A : Type} (perm : option A) : result A :=
  match perm with
  | Some perm => Ok perm
  | None => Raise (UnboundLocalError "perm")
  end.

(** [dist], under [_multiple_input_vectorize]. *)
Definition dist (self : t curve) (graph_a graph_b : points)
    (matcher : string) : result distances :=
  let graph_a := _input_manipulation graph_a in
  let graph_b := _input_manipulation graph_b in
  let base_graph :=
    if (ndim graph_b <? ndim graph_a)%nat then graph_b else graph_a in
  let graph_to_permute :=
    if (ndim graph_b <? ndim graph_a)%nat then graph_a else graph_b in
  perm <- select_matcher self matcher base_graph graph_to_permute ;;
  perm <- read_perm perm ;;
  permuted <- GraphSpace.permute (space self) (Array graph_to_permute) perm ;;
  Metric.dist (total_space_metric self) base_graph permuted.

(** [geodesic], under [_multiple_input_vectorize]. *)
Definition geodesic (self : t curve) (base_point end_point : points)
    (matcher : string) : result curve :=
  let base_point := _input_manipulation base_point in
  let end_point := _input_manipulation end_point in
  perm <- select_matcher self matcher base_point end_point ;;
  perm <- read_perm perm ;;
  permuted <- GraphSpace.permute (space self) (Array end_point) perm ;;
  Metric.geodesic (total_space_metric self) base_point permuted.
End Matching.
End GraphSpaceGeometry.

(** ** Permutations of the nodes *)

Fixpoint no_duplicate (l : list nat) : bool :=
  match l with
  | [] => true
  | x :: rest => negb (existsb (Nat.eqb x) rest) && no_duplicate rest
  end.

(** An ordered sequence of length [nodes] whose entries are node indices. *)
Definition node_sequence (nodes : nat) (p : list nat) : bool :=
  (length p =? nodes)%nat && forallb (fun x => (x <? nodes)%nat) p.

(** A permutation of the nodes: such a sequence without a repeated entry,
    that is a bijection on 0 .. nodes-1; position [i] holds the index that
    node [i] maps to. *)
Definition is_permutation (nodes : nat) (p : list nat) : bool :=
  node_sequence nodes p && no_duplicate p.

(** The composite of two permutations for the action: [p] is applied, and
    the outcome is relabelled by [q], so that position [i] holds [p[q[i]]]. *)
Definition compose (p q : list nat) : list nat :=
  map (fun k => nth k p 0%nat) q.

(** ** Fixtures *)

(** The default space and geometry on [nodes] nodes:
    [GraphSpace(nodes)] and [GraphSpaceGeometry(GraphSpace(nodes))]. *)
Definition graph_space (nodes : nat) : GraphSpace.t :=
  GraphSpace.init nodes Matrices.init.

Definition graph_space_geometry (nodes : nat)
  : GraphSpaceGeometry.t (R -> result ndarray) :=
  GraphSpaceGeometry.init (graph_space nodes) MatricesMetric.init.

(** The directed path 0 -> 1 -> 2. *)
Definition path_graph : matrix := [[0; 1; 0]; [0; 0; 1]; [0; 0; 0]].

(** A solver that always fails, for runs in which the solver is not
    reached. *)
Definition failing_solver (x y : matrix) (maximize : bool) : result (list nat) :=
  Raise (ValueError "quadratic_assignment failed").

(** What one pass of the loop of [permute] appends on the default total
    space, for the graph [graph] and the permutation [perm]. *)
Definition conjugate (nodes : nat) (graph : matrix) (perm : list nat) : matrix :=
  if GraphSpace.all_equal_nodes nodes perm
  then graph
  else matmul (matmul (GraphSpace.permutation_matrix nodes perm) graph)
              (transpose (GraphSpace.permutation_matrix nodes perm)).

(** ** More on permutations and on membership *)

(** The first position of [x] in [l] (the length of [l] when there is
    none). *)
Fixpoint index_of (x : nat) (l : list nat) : nat :=
  match l with
  | [] => 0
  | y :: rest => if (x =? y)%nat then 0 else S (index_of x rest)
  end.

(** The inverse of a permutation of [nodes] nodes: position [i] holds the
    position of [i] in [p]. *)
Definition inverse (nodes : nat) (p : list nat) : list nat :=
  map (fun i => index_of i p) (range nodes).

(** [gs.all] of what [belongs] returns. *)
Definition all_true (b : bools) : bool :=
  match b with
  | BoolScalar b => b
  | BoolVector bs => forallb (fun b => b) bs
  end.

(** Every graph of the argument belongs to the space. *)
Definition all_belong (self : GraphSpace.t) (graphs : points) (atol : R) : bool :=
  match GraphSpace.belongs self graphs atol with
  | Ok b => all_true b
  | Raise _ => false
  end.

(** What one pass of the loop of [permute] appends for the graph [graph]
    and the permutation [perm], on any total space. *)
Definition permute_pair (self : GraphSpace.t) (graph : matrix) (perm : list nat)
  : result matrix :=
  if GraphSpace.all_equal_nodes (GraphSpace.nodes self) perm
  then Ok graph
  else
    TotalSpace.mul (GraphSpace.total_space self)
      (GraphSpace.permutation_matrix (GraphSpace.nodes self) perm) graph
      (transpose (GraphSpace.permutation_matrix (GraphSpace.nodes self) perm)).

(** A total space whose operations always fail, for runs in which the total
    space must not be reached. *)
Definition failing_total_space (m n : nat) : TotalSpace.t :=
  {| TotalSpace.belongs := fun _ _ => Raise (ValueError "belongs failed");
     TotalSpace.mul := fun _ _ _ => Raise (ValueError "mul failed") |}.

(** A solver that always answers, with the natural ordering of the rows of
    its first argument. *)
Definition natural_solver (x y : matrix) (maximize : bool) : result (list nat) :=
  Ok (range (length x)).

(** ** [geomstats/vectorization.py]: the decisions on squeezing the output *)

Module Vectorization.
(** The exceptions of this file: a missing dictionary key and a failed
    [assert]. *)
Inductive error : Type :=
| KeyError (key : string)
| AssertionError.

Inductive outcome (A : Type) : Type :=
| Return (a : A)
| Throw (e : error).

Arguments Return {A} a.
Arguments Throw {A} e.

(** A shape is the tuple of the sizes of the axes; [None] stands for an
    argument whose shape was not recorded. *)
Definition shape : Type := list nat.

Definition POINT_TYPES_TO_NDIMS : list (string * nat) :=
  [("scalar", 2%nat); ("vector", 2%nat); ("matrix", 3%nat)].

(** [d[key]] on a dictionary. *)
Fixpoint lookup (d : list (string * nat)) (key : string) : outcome nat :=
  match d with
  | [] => Throw (KeyError key)
  | (k, v) :: rest => if k =? key then Return v else lookup rest key
  end.

(** The loop of [squeeze_output_dim_0] over the zipped pairs. *)
Fixpoint squeeze_output_dim_0_loop (pairs : list (option shape * string))
  : outcome bool :=
  match pairs with
  | [] => Return true
  | (in_shape, point_type) :: rest =>
      let in_ndim := option_map (@length nat) in_shape in
      match in_ndim with
      | Some in_ndim =>
          if negb (point_type =? "else")
          then
            match lookup POINT_TYPES_TO_NDIMS point_type with
            | Throw e => Throw e
            | Return vect_ndim =>
                if (in_ndim <=? vect_ndim)%nat
                then
                  if (in_ndim =? vect_ndim)%nat
                  then Return false
                  else squeeze_output_dim_0_loop rest
                else Throw AssertionError
            end
          else squeeze_output_dim_0_loop rest
      | None => squeeze_output_dim_0_loop rest
      end
  end.

Definition squeeze_output_dim_0 (initial_shapes : list (option shape))
    (point_types : list string) : outcome bool :=
  squeeze_output_dim_0_loop (zip initial_shapes point_types).

(** [is_scalar], on the shape of its argument. *)
Definition is_scalar (vect_array : shape) : bool :=
  let has_ndim_2 := (length vect_array =? 2)%nat in
  if negb has_ndim_2 then false
  else
    let has_singleton_dim_1 := (nth 1 vect_array 0 =? 1)%nat in
    has_singleton_dim_1.

(** The loop of [squeeze_output_dim_1] over the zipped pairs. *)
Fixpoint squeeze_output_dim_1_loop (pairs : list (option shape * string))
  : outcome bool :=
  match pairs with
  | [] => Return true
  | (shape, point_type) :: rest =>
      match shape with
      | Some shape =>
          if negb (point_type =? "else")
          then
            let ndim := length shape in
            if point_type =? "scalar"
            then
              if (ndim <=? 2)%nat
              then
                if (ndim =? 2)%nat
                then Return false
                else squeeze_output_dim_1_loop rest
              else Throw AssertionError
            else squeeze_output_dim_1_loop rest
          else squeeze_output_dim_1_loop rest
      | None => squeeze_output_dim_1_loop rest
      end
  end.

(** [squeeze_output_dim_1], on the shape of [result]. *)
Definition squeeze_output_dim_1 (result : shape)
    (initial_shapes : list (option shape)) (point_types : list string)
  : outcome bool :=
  if negb (is_scalar result) then Return false
  else squeeze_output_dim_1_loop (zip initial_shapes point_types).

(** An input that leaves dimension 0 squeezable: its shape was not recorded,
    its point type is 'else', or it has fewer axes than the vectorized form
    of its point type. *)
Definition below_vect_ndim (pair : option shape * string) : Prop :=
  match fst pair with
  | None => True
  | Some in_shape =>
      snd pair = "else"
      \/ exists vect_ndim : nat,
           lookup POINT_TYPES_TO_NDIMS (snd pair) = Return vect_ndim
           /\ (length in_shape < vect_ndim)%nat
  end.

(** An input already in vectorized form: it has exactly the axes of the
    vectorized form of its point type. *)
Definition at_vect_ndim (pair : option shape * string) : Prop :=
  exists in_shape : shape,
    fst pair = Some in_shape
    /\ snd pair <> "else"
    /\ lookup POINT_TYPES_TO_NDIMS (snd pair) = Return (length in_shape).

(** A scalar input given with fewer than two axes, or an input that is not
    examined. *)
Definition scalar_below_2 (pair : option shape * string) : Prop :=
  match fst pair with
  | None => True
  | Some in_shape => snd pair = "scalar" -> (length in_shape < 2)%nat
  end.
End Vectorization.

(** * Properties *)

(** ** Matrices built entry by entry *)

Lemma map_seq_ext {A : Type} (f g : nat -> A) (s n : nat) :
  (forall i, (s <= i < s + n)%nat -> f i = g i) ->
  map f (seq s n) = map g (seq s n).
Proof.
  revert s; induction n as [|n IH]; intros s H; simpl; [reflexivity|].
  rewrite (H s) by lia. f_equal. apply IH. intros i Hi. apply H. lia.
Qed.

Lemma build_matrix_ext (r c : nat) (f g : nat -> nat -> R) :
  (forall i j, (i < r)%nat -> (j < c)%nat -> f i j = g i j) ->
  build_matrix r c f = build_matrix r c g.
Proof.
  intros H. unfold build_matrix. apply map_seq_ext. intros i Hi.
  apply map_seq_ext. intros j Hj. apply H; lia.
Qed.

Lemma entry_build_matrix (r c : nat) (f : nat -> nat -> R) (i j : nat) :
  (i < r)%nat -> (j < c)%nat -> entry (build_matrix r c f) i j = f i j.
Proof.
  intros Hi Hj. unfold entry, build_matrix.
  rewrite (nth_indep _ [] (map (f 0%nat) (seq 0 c))) by (rewrite length_map, length_seq; exact Hi).
  rewrite (map_nth (fun i => map (f i) (seq 0 c)) (seq 0 r) 0%nat i).
  rewrite seq_nth by exact Hi. simpl.
  rewrite (nth_indep _ 0 (f i 0%nat)) by (rewrite length_map, length_seq; exact Hj).
  rewrite (map_nth (f i) (seq 0 c) 0%nat j).
  rewrite seq_nth by exact Hj. reflexivity.
Qed.

Lemma n_rows_build_matrix (r c : nat) (f : nat -> nat -> R) :
  n_rows (build_matrix r c f) = r.
Proof. unfold n_rows, build_matrix. now rewrite length_map, length_seq. Qed.

Lemma n_cols_build_matrix (r c : nat) (f : nat -> nat -> R) :
  (0 < r)%nat -> n_cols (build_matrix r c f) = c.
Proof.
  intros Hr. unfold n_cols, build_matrix.
  destruct r as [|r]; [lia|]. simpl. now rewrite length_map, length_seq.
Qed.

Lemma has_shape_build_matrix (r c : nat) (f : nat -> nat -> R) :
  Matrices.has_shape r c (build_matrix r c f) = true.
Proof.
  unfold Matrices.has_shape, build_matrix.
  rewrite length_map, length_seq, Nat.eqb_refl. simpl.
  apply forallb_forall. intros row Hrow. apply in_map_iff in Hrow.
  destruct Hrow as [i [<- _]]. rewrite length_map, length_seq. apply Nat.eqb_refl.
Qed.

Lemma has_shape_rows (m n : nat) (A : matrix) :
  Matrices.has_shape m n A = true -> n_rows A = m.
Proof.
  unfold Matrices.has_shape, n_rows. intros H.
  apply andb_true_iff in H. destruct H as [H _]. now apply Nat.eqb_eq.
Qed.

Lemma has_shape_row_length (m n : nat) (A : matrix) (i : nat) :
  Matrices.has_shape m n A = true -> (i < m)%nat -> length (nth i A []) = n.
Proof.
  unfold Matrices.has_shape. intros H Hi.
  apply andb_true_iff in H. destruct H as [Hl Hr].
  apply Nat.eqb_eq in Hl. rewrite forallb_forall in Hr.
  apply Nat.eqb_eq. apply Hr. apply nth_In. lia.
Qed.

Lemma has_shape_cols (m n : nat) (A : matrix) :
  Matrices.has_shape m n A = true -> (0 < m)%nat -> n_cols A = n.
Proof.
  intros H Hm. unfold n_cols.
  rewrite <- (has_shape_row_length m n A 0 H Hm).
  destruct A; reflexivity.
Qed.

Lemma map_nth_seq {A : Type} (l : list A) (d : A) :
  map (fun i => nth i l d) (seq 0 (length l)) = l.
Proof.
  induction l as [|a l IH]; simpl; [reflexivity|].
  f_equal. rewrite <- seq_shift, map_map. exact IH.
Qed.

(** A matrix of the right shape is the matrix of its entries. *)
Lemma build_matrix_entry (m n : nat) (A : matrix) :
  Matrices.has_shape m n A = true -> build_matrix m n (entry A) = A.
Proof.
  intros H. unfold build_matrix.
  transitivity (map (fun i => nth i A []) (seq 0 (length A)));
    [|apply map_nth_seq].
  pose proof (has_shape_rows m n A H) as Hm. unfold n_rows in Hm. rewrite Hm.
  apply map_seq_ext. intros i Hi. unfold entry.
  rewrite <- (has_shape_row_length m n A i H) by lia.
  apply map_nth_seq.
Qed.

(** ** Sums against a 0/1 row *)

Lemma sum_upto_ext (n : nat) (f g : nat -> R) :
  (forall k, (k < n)%nat -> f k = g k) -> sum_upto n f = sum_upto n g.
Proof.
  induction n as [|n IH]; intros H; simpl; [reflexivity|].
  rewrite IH by (intros k Hk; apply H; lia). rewrite H by lia. reflexivity.
Qed.

Lemma sum_upto_zero (n : nat) (k0 : nat) (g : nat -> R) :
  (n <= k0)%nat ->
  sum_upto n (fun k => (if (k0 =? k)%nat then 1 else 0) * g k) = 0.
Proof.
  induction n as [|n IH]; intros H; simpl; [reflexivity|].
  rewrite IH by lia.
  destruct (Nat.eqb_spec k0 n); [lia|]. ring.
Qed.

Lemma sum_upto_select (n : nat) (k0 : nat) (g : nat -> R) :
  (k0 < n)%nat ->
  sum_upto n (fun k => (if (k0 =? k)%nat then 1 else 0) * g k) = g k0.
Proof.
  induction n as [|n IH]; intros H; simpl; [lia|].
  destruct (Nat.eqb_spec k0 n) as [->|Hne].
  - rewrite sum_upto_zero by lia. ring.
  - rewrite IH by lia. ring.
Qed.

Lemma sum_upto_select_r (n : nat) (k0 : nat) (g : nat -> R) :
  (k0 < n)%nat ->
  sum_upto n (fun k => g k * (if (k0 =? k)%nat then 1 else 0)) = g k0.
Proof.
  intros H. rewrite <- (sum_upto_select n k0 g H).
  apply sum_upto_ext. intros k _. ring.
Qed.

(** ** The permutation matrix and conjugation by it *)

Lemma node_sequence_length (n : nat) (p : list nat) :
  node_sequence n p = true -> length p = n.
Proof.
  unfold node_sequence. intros H. apply andb_true_iff in H.
  destruct H as [H _]. now apply Nat.eqb_eq.
Qed.

Lemma node_sequence_nth (n : nat) (p : list nat) (i : nat) :
  node_sequence n p = true -> (i < n)%nat -> (nth i p 0 < n)%nat.
Proof.
  unfold node_sequence. intros H Hi. apply andb_true_iff in H.
  destruct H as [Hl Hr]. apply Nat.eqb_eq in Hl.
  rewrite forallb_forall in Hr. apply Nat.ltb_lt. apply Hr.
  apply nth_In. lia.
Qed.

Lemma is_permutation_node_sequence (n : nat) (p : list nat) :
  is_permutation n p = true -> node_sequence n p = true.
Proof. unfold is_permutation. intros H. now apply andb_true_iff in H. Qed.

Lemma scatter_ones (i j s : nat) (p : list nat) :
  sum_list
    (map (fun di : R * (nat * nat) =>
            if (fst (snd di) =? i)%nat && (snd (snd di) =? j)%nat
            then fst di else 0)
         (combine (repeat 1 (length p)) (combine (seq s (length p)) p)))
  = if (s <=? i)%nat && (i <? s + length p)%nat
    then (if (nth (i - s) p 0%nat =? j)%nat then 1 else 0)
    else 0.
Proof.
  revert s. induction p as [|x p IH]; intros s; simpl.
  - destruct (Nat.leb_spec s i), (Nat.ltb_spec i (s + 0)); simpl;
      try reflexivity; lia.
  - rewrite IH. cbn [fst snd length].
    destruct (Nat.eqb_spec s i) as [Heq|Hne];
      destruct (Nat.leb_spec s i) as [Hle|Hgt];
      destruct (Nat.leb_spec (S s) i) as [Hle'|Hgt'];
      destruct (Nat.ltb_spec i (s + S (length p))) as [Hlt|Hge];
      destruct (Nat.ltb_spec i (S s + length p)) as [Hlt'|Hge'];
      try lia; cbn [andb].
    + subst s. rewrite Nat.sub_diag. cbn [nth].
      destruct (x =? j)%nat; ring.
    + replace (i - s)%nat with (S (i - S s)) by lia. cbn [nth]. ring.
    + ring.
    + ring.
Qed.

Lemma permutation_matrix_entry (n : nat) (p : list nat) (i j : nat) :
  length p = n -> (i < n)%nat -> (j < n)%nat ->
  entry (GraphSpace.permutation_matrix n p) i j
  = if (nth i p 0%nat =? j)%nat then 1 else 0.
Proof.
  intros Hl Hi Hj. unfold GraphSpace.permutation_matrix, array_from_sparse.
  simpl fst; simpl snd. rewrite entry_build_matrix by assumption.
  unfold ones, zip, range. subst n. rewrite scatter_ones.
  simpl. replace (i <? length p)%nat with true by (symmetry; now apply Nat.ltb_lt).
  now rewrite Nat.sub_0_r.
Qed.

Lemma permutation_matrix_rows (n : nat) (p : list nat) :
  n_rows (GraphSpace.permutation_matrix n p) = n.
Proof. apply n_rows_build_matrix. Qed.

Lemma permutation_matrix_cols (n : nat) (p : list nat) :
  n_cols (GraphSpace.permutation_matrix n p) = n.
Proof.
  destruct n as [|n]; [reflexivity|].
  unfold GraphSpace.permutation_matrix, array_from_sparse.
  apply n_cols_build_matrix. simpl. lia.
Qed.

(** Conjugation by the permutation matrix reads the graph through the
    sequence: entry (i, j) of the product is entry (p[i], p[j]) of the
    graph. *)
Lemma conjugate_entries (n : nat) (G : matrix) (p : list nat) :
  Matrices.has_shape n n G = true ->
  node_sequence n p = true ->
  matmul (matmul (GraphSpace.permutation_matrix n p) G)
         (transpose (GraphSpace.permutation_matrix n p))
  = build_matrix n n (fun i j => entry G (nth i p 0%nat) (nth j p 0%nat)).
Proof.
  intros HG Hp. pose proof (node_sequence_length n p Hp) as Hl.
  destruct n as [|n]; [reflexivity|].
  set (P := GraphSpace.permutation_matrix (S n) p).
  assert (HPG : matmul P G
                = build_matrix (S n) (S n) (fun i j => entry G (nth i p 0%nat) j)).
  { unfold matmul. subst P.
    rewrite permutation_matrix_rows, permutation_matrix_cols.
    rewrite (has_shape_cols (S n) (S n) G HG) by lia.
    apply build_matrix_ext. intros i j Hi Hj.
    rewrite (sum_upto_ext _ _
               (fun k => (if (nth i p 0%nat =? k)%nat then 1 else 0) * entry G k j)).
    - apply (sum_upto_select (S n) (nth i p 0%nat) (fun k => entry G k j)).
      now apply node_sequence_nth.
    - intros k Hk. now rewrite permutation_matrix_entry. }
  rewrite HPG. unfold matmul, transpose. subst P.
  rewrite permutation_matrix_rows, permutation_matrix_cols.
  rewrite !n_rows_build_matrix, !n_cols_build_matrix by lia.
  apply build_matrix_ext. intros i j Hi Hj.
  rewrite (sum_upto_ext _ _
             (fun l => entry G (nth i p 0%nat) l
                       * (if (nth j p 0%nat =? l)%nat then 1 else 0))).
  - apply (sum_upto_select_r (S n) (nth j p 0%nat)
             (fun l => entry G (nth i p 0%nat) l)).
    now apply node_sequence_nth.
  - intros l Hlt. rewrite !entry_build_matrix by assumption.
    now rewrite permutation_matrix_entry.
Qed.

(** ** [permute] on a single graph *)

Lemma permute_single (self : GraphSpace.t) (G : matrix) (perm : list nat) :
  GraphSpace.permute self (Array (Rank2 G)) perm
  = if GraphSpace.all_equal_nodes (GraphSpace.nodes self) perm
    then Ok (Rank2 G)
    else
      product <-
        TotalSpace.mul (GraphSpace.total_space self)
          (GraphSpace.permutation_matrix (GraphSpace.nodes self) perm) G
          (transpose (GraphSpace.permutation_matrix (GraphSpace.nodes self) perm)) ;;
      Ok (Rank2 product).
Proof.
  unfold GraphSpace.permute. cbn [_input_manipulation GraphSpace.permute_loop].
  destruct (GraphSpace.all_equal_nodes (GraphSpace.nodes self) perm).
  - reflexivity.
  - cbn. destruct (TotalSpace.mul _ _ _ _); reflexivity.
Qed.

Lemma all_equal_nodes_sequence (n : nat) (perm : list nat) :
  (1 <= n)%nat -> node_sequence n perm = true ->
  GraphSpace.all_equal_nodes n perm = false.
Proof.
  intros Hn Hp. pose proof (node_sequence_length n perm Hp) as Hl.
  pose proof (node_sequence_nth n perm 0 Hp ltac:(lia)) as H0.
  destruct perm as [|x rest]; [simpl in Hl; lia|].
  simpl in H0. simpl. destruct (Nat.eqb_spec n x); [lia|reflexivity].
Qed.

Lemma has_shape_zero (G : matrix) : Matrices.has_shape 0 0 G = true -> G = [].
Proof.
  intros H. apply has_shape_rows in H. unfold n_rows in H.
  destruct G; [reflexivity|discriminate].
Qed.

(** On the default total space a node sequence acts by reading the graph
    through it. *)
Lemma permute_entries (n : nat) (G : matrix) (perm : list nat) :
  Matrices.has_shape n n G = true ->
  node_sequence n perm = true ->
  GraphSpace.permute (graph_space n) (Array (Rank2 G)) perm
  = Ok (Rank2 (build_matrix n n
                 (fun i j => entry G (nth i perm 0%nat) (nth j perm 0%nat)))).
Proof.
  intros HG Hp. rewrite permute_single. cbn [graph_space GraphSpace.init
    GraphSpace.nodes GraphSpace.total_space Matrices.init TotalSpace.mul].
  destruct n as [|n].
  - pose proof (node_sequence_length 0 perm Hp) as Hl.
    destruct perm; [|discriminate]. cbn. now rewrite (has_shape_zero G HG).
  - rewrite all_equal_nodes_sequence by (try lia; assumption).
    unfold Matrices.mul. cbn [bind].
    now rewrite conjugate_entries.
Qed.

(** C10: on a space with at least two nodes and for every permutation of
    the nodes, the identity included, the test that guards the shortcut
    (every entry of the permutation equal to the number [nodes]) is false,
    so [permute] builds the permutation matrix, with a one at every
    (i, p[i]) and zeros elsewhere, and returns the product of the total
    space's multiply; the unchanged-input branch is not taken. *)
Theorem permute_never_takes_shortcut
    (self : GraphSpace.t) (G : matrix) (perm : list nat) :
  (2 <= GraphSpace.nodes self)%nat ->
  is_permutation (GraphSpace.nodes self) perm = true ->
  GraphSpace.all_equal_nodes (GraphSpace.nodes self) perm = false
  /\ (forall i j, (i < GraphSpace.nodes self)%nat ->
                  (j < GraphSpace.nodes self)%nat ->
        entry (GraphSpace.permutation_matrix (GraphSpace.nodes self) perm) i j
        = if (nth i perm 0%nat =? j)%nat then 1 else 0)
  /\ GraphSpace.permute self (Array (Rank2 G)) perm
     = (product <-
          TotalSpace.mul (GraphSpace.total_space self)
            (GraphSpace.permutation_matrix (GraphSpace.nodes self) perm) G
            (transpose (GraphSpace.permutation_matrix (GraphSpace.nodes self) perm)) ;;
        Ok (Rank2 product)).
Proof.
  intros Hn Hp. apply is_permutation_node_sequence in Hp.
  assert (Hf : GraphSpace.all_equal_nodes (GraphSpace.nodes self) perm = false)
    by (apply all_equal_nodes_sequence; [lia|exact Hp]).
  split; [exact Hf|]. split.
  - intros i j Hi Hj. apply permutation_matrix_entry; try assumption.
    now apply node_sequence_length.
  - rewrite permute_single, Hf. reflexivity.
Qed.

Lemma permute_never_takes_shortcut_witness :
  GraphSpace.all_equal_nodes 3 (range 3) = false
  /\ (forall i j, (i < 3)%nat -> (j < 3)%nat ->
        entry (GraphSpace.permutation_matrix 3 (range 3)) i j
        = if (nth i (range 3) 0%nat =? j)%nat then 1 else 0)
  /\ GraphSpace.permute (graph_space 3) (Array (Rank2 path_graph)) (range 3)
     = (product <-
          Matrices.mul (GraphSpace.permutation_matrix 3 (range 3)) path_graph
            (transpose (GraphSpace.permutation_matrix 3 (range 3))) ;;
        Ok (Rank2 product)).
Proof.
  apply (permute_never_takes_shortcut (graph_space 3) path_graph (range 3)).
  - simpl. lia.
  - reflexivity.
Defined.

(** C3: at the identity ordering of a three-node space the guard of the
    shortcut is false, and whatever the total space is, [permute] returns
    what its multiply makes of the identity permutation matrix, the graph
    and the transpose, not the input by the shortcut. *)
Theorem permute_identity_takes_product (ts : TotalSpace.t) (G : matrix) :
  GraphSpace.all_equal_nodes 3 [0; 1; 2]%nat = false
  /\ GraphSpace.permutation_matrix 3 [0; 1; 2]%nat
     = [[1; 0; 0]; [0; 1; 0]; [0; 0; 1]]
  /\ GraphSpace.permute {| GraphSpace.nodes := 3; GraphSpace.total_space := ts |}
       (Array (Rank2 G)) [0; 1; 2]%nat
     = (product <-
          TotalSpace.mul ts
            (GraphSpace.permutation_matrix 3 [0; 1; 2]%nat) G
            (transpose (GraphSpace.permutation_matrix 3 [0; 1; 2]%nat)) ;;
        Ok (Rank2 product)).
Proof.
  split; [reflexivity|]. split.
  - cbn. repeat (f_equal; try ring).
  - rewrite permute_single. reflexivity.
Qed.

(** The unchanged-graph branch is the one taken by a sequence whose every
    entry is the number of nodes. *)
Example permute_all_nodes (ts : TotalSpace.t) (G : matrix) :
  GraphSpace.permute {| GraphSpace.nodes := 3; GraphSpace.total_space := ts |}
    (Array (Rank2 G)) [3; 3; 3]%nat
  = Ok (Rank2 G).
Proof. reflexivity. Qed.

(** C1, as the code has it: on three nodes the path 0 -> 1 -> 2 permuted by
    [1, 2, 0] is the matrix [[0,1,0],[0,0,0],[1,0,0]]. *)
Theorem permute_path_fixture :
  GraphSpace.permute (graph_space 3) (Array (Rank2 path_graph)) [1; 2; 0]%nat
  = Ok (Rank2 [[0; 1; 0]; [0; 0; 0]; [1; 0; 0]]).
Proof. rewrite permute_entries by reflexivity. reflexivity. Qed.

(** C1, as the spec states it, fails: the permuted path is not the matrix
    [[0,0,1],[0,0,0],[1,0,0]]; the two differ at entry (0, 1). *)
Lemma permute_path_fixture_differs :
  GraphSpace.permute (graph_space 3) (Array (Rank2 path_graph)) [1; 2; 0]%nat
  = Ok (Rank2 [[0; 1; 0]; [0; 0; 0]; [1; 0; 0]])
  /\ Ok (Rank2 [[0; 1; 0]; [0; 0; 0]; [1; 0; 0]])
     <> Ok (Rank2 [[0; 0; 1]; [0; 0; 0]; [1; 0; 0]]).
Proof.
  split.
  - rewrite permute_entries by reflexivity. reflexivity.
  - intros H. injection H as H. lra.
Qed.

(** ** The action law *)

Lemma node_sequence_range (n : nat) : node_sequence n (range n) = true.
Proof.
  unfold node_sequence, range. rewrite length_seq, Nat.eqb_refl. simpl.
  apply forallb_forall. intros x Hx. apply in_seq in Hx. apply Nat.ltb_lt. lia.
Qed.

Lemma nth_compose (n : nat) (p q : list nat) (i : nat) :
  node_sequence n q = true -> (i < n)%nat ->
  nth i (compose p q) 0%nat = nth (nth i q 0%nat) p 0%nat.
Proof.
  intros Hq Hi. unfold compose.
  rewrite (nth_indep _ 0%nat (nth 0%nat p 0%nat))
    by (rewrite length_map, (node_sequence_length n q Hq); exact Hi).
  apply (map_nth (fun k => nth k p 0%nat)).
Qed.

Lemma node_sequence_compose (n : nat) (p q : list nat) :
  node_sequence n p = true -> node_sequence n q = true ->
  node_sequence n (compose p q) = true.
Proof.
  intros Hp Hq. unfold node_sequence, compose.
  rewrite length_map, (node_sequence_length n q Hq), Nat.eqb_refl. simpl.
  apply forallb_forall. intros x Hx. apply in_map_iff in Hx.
  destruct Hx as [k [<- Hk]]. apply Nat.ltb_lt.
  apply node_sequence_nth; [exact Hp|].
  unfold node_sequence in Hq. apply andb_true_iff in Hq. destruct Hq as [_ Hq].
  rewrite forallb_forall in Hq. apply Nat.ltb_lt. now apply Hq.
Qed.

Lemma belongs_single (n : nat) (G : matrix) (atol : R) :
  GraphSpace.belongs (graph_space n) (Array (Rank2 G)) atol
  = Ok (BoolScalar (Matrices.has_shape n n G)).
Proof. reflexivity. Qed.

Lemma belongs_has_shape (n : nat) (G : matrix) (atol : R) :
  GraphSpace.belongs (graph_space n) (Array (Rank2 G)) atol = Ok (BoolScalar true) ->
  Matrices.has_shape n n G = true.
Proof. rewrite belongs_single. intros H. now injection H. Qed.

Lemma no_duplicate_NoDup (l : list nat) : no_duplicate l = true <-> NoDup l.
Proof.
  induction l as [|x l IH]; simpl.
  - split; [constructor|reflexivity].
  - rewrite andb_true_iff, negb_true_iff, IH. split.
    + intros [Hx Hl]. constructor; [|exact Hl]. intros Hin.
      assert (existsb (Nat.eqb x) l = true) as He
        by (apply existsb_exists; exists x; split; [exact Hin|apply Nat.eqb_refl]).
      congruence.
    + intros H. inversion H as [|? ? Hx Hl]; subst. split; [|exact Hl].
      destruct (existsb (Nat.eqb x) l) eqn:He; [|reflexivity].
      apply existsb_exists in He. destruct He as [y [Hy Hxy]].
      apply Nat.eqb_eq in Hxy. subst y. contradiction.
Qed.

(** The composite of two permutations is a permutation. *)
Lemma is_permutation_compose (n : nat) (p q : list nat) :
  is_permutation n p = true -> is_permutation n q = true ->
  is_permutation n (compose p q) = true.
Proof.
  unfold is_permutation. rewrite !andb_true_iff.
  intros [Hp Dp] [Hq Dq]. split; [now apply node_sequence_compose|].
  apply no_duplicate_NoDup. apply no_duplicate_NoDup in Dp, Dq.
  unfold compose. apply NoDup_map_NoDup_ForallPairs; [|exact Dq].
  intros x y Hx Hy Hxy.
  assert (Hlt : forall k, In k q -> (k < length p)%nat).
  { intros k Hk. rewrite (node_sequence_length n p Hp).
    unfold node_sequence in Hq. apply andb_true_iff in Hq.
    destruct Hq as [_ Hq]. rewrite forallb_forall in Hq.
    apply Nat.ltb_lt. now apply Hq. }
  apply (proj1 (NoDup_nth p 0%nat) Dp); auto.
Qed.

(** C7: permuting by [p] and then by [q] is permuting once by the composite
    [compose p q], the permutation that holds [p[q[i]]] at position [i]; all
    three calls return, and the two results are the same matrix. *)
Theorem permute_compose
    (n : nat) (G : matrix) (p q : list nat) (atol : R) :
  GraphSpace.belongs (graph_space n) (Array (Rank2 G)) atol = Ok (BoolScalar true) ->
  is_permutation n p = true ->
  is_permutation n q = true ->
  exists G1 G2 : matrix,
    GraphSpace.permute (graph_space n) (Array (Rank2 G)) p = Ok (Rank2 G1)
    /\ GraphSpace.permute (graph_space n) (Array (Rank2 G1)) q = Ok (Rank2 G2)
    /\ GraphSpace.permute (graph_space n) (Array (Rank2 G)) (compose p q)
       = Ok (Rank2 G2)
    /\ is_permutation n (compose p q) = true.
Proof.
  intros HG Hp Hq. apply belongs_has_shape in HG.
  pose proof (is_permutation_compose n p q Hp Hq) as Hpq.
  apply is_permutation_node_sequence in Hp, Hq.
  eexists. eexists. split; [now apply permute_entries|].
  split; [|split; [|exact Hpq]].
  - apply permute_entries; [apply has_shape_build_matrix|exact Hq].
  - rewrite permute_entries
      by (try assumption; now apply node_sequence_compose).
    do 3 f_equal. apply build_matrix_ext. intros i j Hi Hj.
    rewrite entry_build_matrix by (now apply node_sequence_nth).
    now rewrite !(nth_compose n p q) by assumption.
Qed.

Lemma permute_compose_witness :
  exists G1 G2 : matrix,
    GraphSpace.permute (graph_space 3) (Array (Rank2 path_graph)) [1; 0; 2]%nat
    = Ok (Rank2 G1)
    /\ GraphSpace.permute (graph_space 3) (Array (Rank2 G1)) [0; 2; 1]%nat
       = Ok (Rank2 G2)
    /\ GraphSpace.permute (graph_space 3) (Array (Rank2 path_graph))
         (compose [1; 0; 2]%nat [0; 2; 1]%nat)
       = Ok (Rank2 G2)
    /\ is_permutation 3 (compose [1; 0; 2]%nat [0; 2; 1]%nat) = true.
Proof.
  apply (permute_compose 3 path_graph [1; 0; 2]%nat [0; 2; 1]%nat 0);
    reflexivity.
Defined.

(** The order of the composite matters: the sequence that holds [q[p[i]]]
    does not give the graph permuted by [p] and then by [q]. *)
Example compose_other_order :
  GraphSpace.permute (graph_space 3) (Array (Rank2 path_graph)) [1; 0; 2]%nat
  = Ok (Rank2 [[0; 0; 1]; [1; 0; 0]; [0; 0; 0]])
  /\ GraphSpace.permute (graph_space 3)
       (Array (Rank2 [[0; 0; 1]; [1; 0; 0]; [0; 0; 0]])) [0; 2; 1]%nat
     = Ok (Rank2 [[0; 1; 0]; [0; 0; 0]; [1; 0; 0]])
  /\ GraphSpace.permute (graph_space 3) (Array (Rank2 path_graph))
       (compose [1; 0; 2]%nat [0; 2; 1]%nat)
     = Ok (Rank2 [[0; 1; 0]; [0; 0; 0]; [1; 0; 0]])
  /\ GraphSpace.permute (graph_space 3) (Array (Rank2 path_graph))
       (compose [0; 2; 1]%nat [1; 0; 2]%nat)
     = Ok (Rank2 [[0; 0; 0]; [0; 0; 1]; [1; 0; 0]]).
Proof.
  repeat split; rewrite permute_entries by reflexivity; reflexivity.
Qed.

(** ** Membership *)

(** C9: a permuted member of the space is a member of the space: [permute]
    returns a matrix, and [belongs] accepts it. *)
Theorem permute_belongs (n : nat) (G : matrix) (perm : list nat) (atol : R) :
  GraphSpace.belongs (graph_space n) (Array (Rank2 G)) atol = Ok (BoolScalar true) ->
  is_permutation n perm = true ->
  exists G' : matrix,
    GraphSpace.permute (graph_space n) (Array (Rank2 G)) perm = Ok (Rank2 G')
    /\ GraphSpace.belongs (graph_space n) (Array (Rank2 G')) atol
       = Ok (BoolScalar true).
Proof.
  intros HG Hp. apply belongs_has_shape in HG.
  apply is_permutation_node_sequence in Hp.
  eexists. split; [now apply permute_entries|].
  rewrite belongs_single. now rewrite has_shape_build_matrix.
Qed.

Lemma permute_belongs_witness :
  exists G' : matrix,
    GraphSpace.permute (graph_space 3) (Array (Rank2 path_graph)) [1; 2; 0]%nat
    = Ok (Rank2 G')
    /\ GraphSpace.belongs (graph_space 3) (Array (Rank2 G')) 0
       = Ok (BoolScalar true).
Proof.
  apply (permute_belongs 3 path_graph [1; 2; 0]%nat 0); reflexivity.
Defined.

(** ** The identity matcher and the distance *)

Lemma permute_identity (n : nat) (G : matrix) :
  Matrices.has_shape n n G = true ->
  GraphSpace.permute (graph_space n) (Array (Rank2 G)) (range n) = Ok (Rank2 G).
Proof.
  intros HG. rewrite permute_entries by (try assumption; apply node_sequence_range).
  do 3 f_equal.
  transitivity (build_matrix n n (entry G)); [|now apply build_matrix_entry].
  apply build_matrix_ext. intros i j Hi Hj.
  unfold range. now rewrite !seq_nth by assumption.
Qed.

Lemma sum_squares_self (l : list R) :
  sum_list (map (fun xy : R * R => (snd xy - fst xy) * (snd xy - fst xy))
                (combine l l)) = 0.
Proof.
  induction l as [|x l IH]; simpl; [reflexivity|]. rewrite IH. ring.
Qed.

Lemma frobenius_dist_self (G : matrix) : MatricesMetric.frobenius_dist G G = 0.
Proof.
  unfold MatricesMetric.frobenius_dist. rewrite sum_squares_self. apply sqrt_0.
Qed.

Section Distances.
Variable quadratic_assignment : matrix -> matrix -> bool -> result (list nat).

Lemma dist_single_id (n : nat) (G H : matrix) :
  GraphSpaceGeometry.dist quadratic_assignment (graph_space_geometry n)
    (Array (Rank2 G)) (Array (Rank2 H)) "ID"
  = (permuted <- GraphSpace.permute (graph_space n) (Array (Rank2 H)) (range n) ;;
     Metric.dist (MatricesMetric.init n n) (Rank2 G) permuted).
Proof. reflexivity. Qed.

(** C8: under the identity matcher the distance from a graph of the space to
    itself is zero. *)
Theorem dist_self_id (n : nat) (G : matrix) (atol : R) :
  GraphSpace.belongs (graph_space n) (Array (Rank2 G)) atol = Ok (BoolScalar true) ->
  GraphSpaceGeometry.dist quadratic_assignment (graph_space_geometry n)
    (Array (Rank2 G)) (Array (Rank2 G)) "ID"
  = Ok (Scalar 0).
Proof.
  intros HG. apply belongs_has_shape in HG.
  rewrite dist_single_id, permute_identity by assumption.
  cbn. now rewrite frobenius_dist_self.
Qed.

(** C4: with a matcher name other than "ID" and "FAQ", [dist] and [geodesic]
    fail, whatever the space, the metric, the solver and the two inputs are:
    the variable [perm] is read while still unbound, before a matcher, the
    permutation or the metric is reached, and no other matcher stands in. *)
Theorem unknown_matcher_fails {curve : Type}
    (self : GraphSpaceGeometry.t curve) (graph_a graph_b : points)
    (matcher : string) :
  matcher <> "ID" -> matcher <> "FAQ" ->
  GraphSpaceGeometry.dist quadratic_assignment self graph_a graph_b matcher
  = Raise (UnboundLocalError "perm")
  /\ GraphSpaceGeometry.geodesic quadratic_assignment self graph_a graph_b matcher
     = Raise (UnboundLocalError "perm").
Proof.
  intros Hid Hfaq. apply String.eqb_neq in Hid, Hfaq.
  unfold GraphSpaceGeometry.dist, GraphSpaceGeometry.geodesic,
    GraphSpaceGeometry.select_matcher.
  rewrite Hid, Hfaq. split; reflexivity.
Qed.

End Distances.

Lemma dist_self_id_witness :
  GraphSpaceGeometry.dist failing_solver (graph_space_geometry 3)
    (Array (Rank2 path_graph)) (Array (Rank2 path_graph)) "ID"
  = Ok (Scalar 0).
Proof.
  apply (dist_self_id failing_solver 3 path_graph 0). reflexivity.
Defined.

Lemma unknown_matcher_fails_witness :
  GraphSpaceGeometry.dist failing_solver (graph_space_geometry 3)
    (Array (Rank2 path_graph)) (Array (Rank3 [path_graph])) "faq"
  = Raise (UnboundLocalError "perm")
  /\ GraphSpaceGeometry.geodesic failing_solver (graph_space_geometry 3)
       (Array (Rank2 path_graph)) (Array (Rank3 [path_graph])) "faq"
     = Raise (UnboundLocalError "perm").
Proof.
  apply (unknown_matcher_fails failing_solver (graph_space_geometry 3)
           (Array (Rank2 path_graph)) (Array (Rank3 [path_graph])) "faq");
    discriminate.
Defined.

(** ** [permute] on a batch *)

Lemma permute_single_conjugate (n : nat) (G : matrix) (perm : list nat) :
  GraphSpace.permute (graph_space n) (Array (Rank2 G)) perm
  = Ok (Rank2 (conjugate n G perm)).
Proof.
  rewrite permute_single. unfold conjugate. cbn.
  destruct (GraphSpace.all_equal_nodes n perm); reflexivity.
Qed.

Lemma skipn_nth_cons {A : Type} (l : list A) (i : nat) (d : A) :
  (i < length l)%nat -> skipn i l = nth i l d :: skipn (S i) l.
Proof.
  revert i; induction l as [|a l IH]; intros i Hi; simpl in Hi; [lia|].
  destruct i as [|i]; [reflexivity|].
  simpl. apply IH. lia.
Qed.

Lemma getitem_nth {A : Type} (l : list A) (i : nat) (d : A) :
  (i < length l)%nat -> getitem l i = Ok (nth i l d).
Proof.
  intros Hi. unfold getitem.
  rewrite (nth_error_nth' l d Hi). reflexivity.
Qed.

Lemma getitem_out_of_range {A : Type} (l : list A) (i : nat) :
  (length l <= i)%nat -> getitem l i = Raise IndexError.
Proof.
  intros Hi. unfold getitem.
  now rewrite (proj2 (nth_error_None l i) Hi).
Qed.

Lemma permute_loop_pass (n : nat) (graphs : list matrix) (i : nat)
    (perm : list nat) (rest : list (list nat)) :
  GraphSpace.permute_loop (graph_space n) graphs i (perm :: rest)
  = (graph <- getitem graphs i ;;
     result <- GraphSpace.permute_loop (graph_space n) graphs (S i) rest ;;
     Ok (conjugate n graph perm :: result)).
Proof.
  cbn [GraphSpace.permute_loop]. unfold conjugate. cbn.
  destruct (GraphSpace.all_equal_nodes n perm);
    destruct (getitem graphs i); reflexivity.
Qed.

(** With a graph for every permutation the loop pairs them off in order. *)
Lemma permute_loop_enough (n : nat) (graphs : list matrix)
    (perms : list (list nat)) (i : nat) :
  (i + length perms <= length graphs)%nat ->
  GraphSpace.permute_loop (graph_space n) graphs i perms
  = Ok (map (fun gp : matrix * list nat => conjugate n (fst gp) (snd gp))
            (combine (skipn i graphs) perms)).
Proof.
  revert i; induction perms as [|perm rest IH]; intros i Hi.
  - cbn. now rewrite combine_nil.
  - simpl in Hi. rewrite permute_loop_pass.
    rewrite (getitem_nth graphs i []) by lia. cbn [bind].
    rewrite IH by lia. cbn [bind].
    rewrite (skipn_nth_cons graphs i []) by lia. reflexivity.
Qed.

(** With more permutations than graphs the loop indexes past the last
    graph. *)
Lemma permute_loop_short (n : nat) (graphs : list matrix)
    (perms : list (list nat)) (i : nat) :
  (i <= length graphs < i + length perms)%nat ->
  GraphSpace.permute_loop (graph_space n) graphs i perms = Raise IndexError.
Proof.
  revert i; induction perms as [|perm rest IH]; intros i Hi.
  - simpl in Hi. lia.
  - simpl in Hi. rewrite permute_loop_pass.
    destruct (Nat.eq_dec i (length graphs)) as [->|Hne].
    + now rewrite getitem_out_of_range by lia.
    + rewrite (getitem_nth graphs i []) by lia. cbn [bind].
      now rewrite IH by lia.
Qed.

Lemma nth_combine {A B : Type} (l : list A) (l' : list B) (i : nat) (x : A) (y : B) :
  (i < length l')%nat -> (length l' <= length l)%nat ->
  nth i (combine l l') (x, y) = (nth i l x, nth i l' y).
Proof.
  revert l' i; induction l as [|a l IH]; intros l' i Hi Hle.
  - simpl in Hle. lia.
  - destruct l' as [|b l']; simpl in Hi, Hle; [lia|].
    destruct i as [|i]; [reflexivity|]. simpl. apply IH; lia.
Qed.

Lemma nth_conjugates (n : nat) (graphs : list matrix)
    (perms : list (list nat)) (i : nat) :
  (i < length perms)%nat -> (length perms <= length graphs)%nat ->
  nth i (map (fun gp : matrix * list nat => conjugate n (fst gp) (snd gp))
             (combine graphs perms)) []
  = conjugate n (nth i graphs []) (nth i perms []).
Proof.
  intros Hi Hle.
  rewrite (nth_indep _ [] (conjugate n (fst (@nil (list R), @nil nat))
                                        (snd (@nil (list R), @nil nat))))
    by (rewrite length_map, length_combine; lia).
  rewrite (map_nth (fun gp : matrix * list nat => conjugate n (fst gp) (snd gp))).
  rewrite nth_combine by lia. reflexivity.
Qed.

Lemma conjugate_sequence (n : nat) (G : matrix) (perm : list nat) :
  Matrices.has_shape n n G = true ->
  node_sequence n perm = true ->
  conjugate n G perm
  = build_matrix n n (fun i j => entry G (nth i perm 0%nat) (nth j perm 0%nat)).
Proof.
  intros HG Hp. pose proof (permute_entries n G perm HG Hp) as H.
  rewrite permute_single_conjugate in H. now injection H.
Qed.

Lemma permute_batch_enough (n : nat) (graphs : list matrix)
    (perms : list (list nat)) :
  (length perms <= length graphs)%nat ->
  GraphSpace.permute (graph_space n) (Array (Rank3 graphs)) perms
  = Ok (gs_array
          (map (fun gp : matrix * list nat => conjugate n (fst gp) (snd gp))
               (combine graphs perms))).
Proof.
  intros Hle. unfold GraphSpace.permute. cbn [_input_manipulation].
  rewrite permute_loop_enough by (simpl; lia). reflexivity.
Qed.

(** C5, as the code has it: [permute] does not compare the two lengths.
    With no more permutations than graphs it returns one permuted graph per
    permutation, graph [i] permuted by permutation [i], and leaves the other
    graphs out (the array that [gs.array] makes of them: their batch, or the
    empty array with one axis when there is no permutation at all); with
    more permutations than graphs it fails with an index error, on the
    default total space. *)
Theorem permute_batch_lengths (n : nat) (graphs : list matrix)
    (perms : list (list nat)) :
  ((length perms <= length graphs)%nat ->
   exists result : list matrix,
     GraphSpace.permute (graph_space n) (Array (Rank3 graphs)) perms
     = Ok (gs_array result)
     /\ length result = length perms
     /\ forall i, (i < length perms)%nat ->
          GraphSpace.permute (graph_space n)
            (Array (Rank2 (nth i graphs []))) (nth i perms [])
          = Ok (Rank2 (nth i result [])))
  /\ ((length graphs < length perms)%nat ->
      GraphSpace.permute (graph_space n) (Array (Rank3 graphs)) perms
      = Raise IndexError).
Proof.
  split.
  - intros Hle. eexists. split; [now apply permute_batch_enough|]. split.
    + rewrite length_map, length_combine. lia.
    + intros i Hi. rewrite permute_single_conjugate.
      now rewrite nth_conjugates.
  - intros Hlt. unfold GraphSpace.permute. cbn [_input_manipulation].
    rewrite permute_loop_short by (simpl; lia). reflexivity.
Qed.

(** C5, as the spec states it, fails: two graphs with a single permutation
    give no error but the one-graph batch of the first graph permuted. *)
Lemma permute_batch_truncates :
  GraphSpace.permute (graph_space 3)
    (Array (Rank3 [path_graph; path_graph])) [[1; 2; 0]%nat]
  = Ok (Rank3 [[[0; 1; 0]; [0; 0; 0]; [1; 0; 0]]]).
Proof.
  rewrite permute_batch_enough by (simpl; lia).
  cbn [combine map fst snd].
  rewrite conjugate_sequence by reflexivity. reflexivity.
Qed.

(** ** [geodesic] *)

Section Geodesics.
Variable quadratic_assignment : matrix -> matrix -> bool -> result (list nat).
Context {curve : Type}.

(** C2, as the code has it: [geodesic] keeps [base_point] as the base graph
    and does not reorder its inputs.  With a batched [base_point] and a
    single [end_point] it fails with the matcher's usage error; when the
    matcher returns a permutation and [permute] a permuted end point, it
    returns the metric's geodesic between [base_point] and that point, the
    same aligned pair that [dist] hands to the metric's distance. *)
Theorem geodesic_keeps_base
    (self : GraphSpaceGeometry.t curve) (base_point end_point : points)
    (matcher : string) :
  matcher = "ID" \/ matcher = "FAQ" ->
  ((ndim (_input_manipulation end_point) < ndim (_input_manipulation base_point))%nat ->
   exists msg : string,
     GraphSpaceGeometry.geodesic quadratic_assignment self
       base_point end_point matcher
     = Raise (ValueError msg))
  /\ (forall (perm : permutation_arg (_input_manipulation end_point))
             (permuted : tensor),
        (if matcher =? "FAQ"
         then GraphSpaceGeometry.faq_matching quadratic_assignment
                (_input_manipulation base_point) (_input_manipulation end_point)
         else GraphSpaceGeometry.id_matching self
                (_input_manipulation base_point) (_input_manipulation end_point))
        = Ok perm ->
        GraphSpace.permute (GraphSpaceGeometry.space self)
          (Array (_input_manipulation end_point)) perm
        = Ok permuted ->
        GraphSpaceGeometry.geodesic quadratic_assignment self
          base_point end_point matcher
        = Metric.geodesic (GraphSpaceGeometry.total_space_metric self)
            (_input_manipulation base_point) permuted
        /\ GraphSpaceGeometry.dist quadratic_assignment self
             base_point end_point matcher
           = Metric.dist (GraphSpaceGeometry.total_space_metric self)
               (_input_manipulation base_point) permuted).
Proof.
  intros Hm. unfold GraphSpaceGeometry.geodesic, GraphSpaceGeometry.dist,
    GraphSpaceGeometry.select_matcher.
  generalize (_input_manipulation base_point) as base.
  generalize (_input_manipulation end_point) as target.
  intros target base. split.
  - intros Hlt. destruct base, target; simpl in Hlt; try lia.
    destruct Hm as [-> | ->]; eexists; reflexivity.
  - intros perm permuted Hperm Hpermuted.
    destruct base as [b|bs], target as [g|gs];
      destruct Hm as [-> | ->]; cbn in Hperm, Hpermuted |- *;
      try discriminate;
      first [rewrite Hperm | injection Hperm as <-];
      cbn; rewrite Hpermuted; split; reflexivity.
Qed.

End Geodesics.

Lemma geodesic_keeps_base_witness :
  ((ndim (Rank2 path_graph) < ndim (Rank3 [path_graph]))%nat ->
   exists msg : string,
     GraphSpaceGeometry.geodesic failing_solver (graph_space_geometry 3)
       (Array (Rank3 [path_graph])) (Array (Rank2 path_graph)) "ID"
     = Raise (ValueError msg))
  /\ (forall (perm : list nat) (permuted : tensor),
        GraphSpaceGeometry.id_matching (graph_space_geometry 3)
          (Rank3 [path_graph]) (Rank2 path_graph)
        = Ok perm ->
        GraphSpace.permute (graph_space 3) (Array (Rank2 path_graph)) perm
        = Ok permuted ->
        GraphSpaceGeometry.geodesic failing_solver (graph_space_geometry 3)
          (Array (Rank3 [path_graph])) (Array (Rank2 path_graph)) "ID"
        = MatricesMetric.geodesic 3 3 (Rank3 [path_graph]) permuted
        /\ GraphSpaceGeometry.dist failing_solver (graph_space_geometry 3)
             (Array (Rank3 [path_graph])) (Array (Rank2 path_graph)) "ID"
           = MatricesMetric.dist 3 3 (Rank3 [path_graph]) permuted).
Proof.
  apply (geodesic_keeps_base failing_solver (graph_space_geometry 3)
           (Array (Rank3 [path_graph])) (Array (Rank2 path_graph)) "ID").
  left. reflexivity.
Defined.

(** C2, as the spec states it, fails: with the batched base point first and
    a single end point, [geodesic] raises the identity matcher's error,
    while [dist] on the same arguments takes the single graph as the base
    and returns a vector of distances. *)
Lemma geodesic_batched_base_fails :
  GraphSpaceGeometry.geodesic failing_solver (graph_space_geometry 3)
    (Array (Rank3 [path_graph; path_graph])) (Array (Rank2 path_graph)) "ID"
  = Raise (ValueError
      "The method can align a set of graphs to one graphs,but the single graphs should be passed as base_graph")
  /\ GraphSpaceGeometry.dist failing_solver (graph_space_geometry 3)
       (Array (Rank3 [path_graph; path_graph])) (Array (Rank2 path_graph)) "ID"
     = Ok (Vector [0; 0]).
Proof.
  split; [reflexivity|].
  unfold GraphSpaceGeometry.dist. cbn -[GraphSpace.permute MatricesMetric.dist].
  change (repeat (range 3) 2) with [range 3; range 3].
  rewrite permute_batch_enough by (simpl; lia).
  cbn [combine map fst snd bind gs_array].
  rewrite !conjugate_sequence by reflexivity.
  change (build_matrix 3 3 _) with path_graph.
  cbn [MatricesMetric.dist MatricesMetric.broadcast bind map].
  now rewrite frobenius_dist_self.
Qed.

(** ** One graph against a batch *)

Lemma gs_array_length (l : list matrix) :
  length l <> 0%nat -> gs_array l = Nd (Rank3 l).
Proof. destruct l; [intros H; now elim H|reflexivity]. Qed.

Lemma gs_stack_repeat (x : matrix) (k : nat) :
  k <> 0%nat -> gs_stack (repeat x k) = Ok (repeat x k).
Proof. destruct k; [intros H; now elim H|reflexivity]. Qed.

Lemma length_nonempty {A : Type} (l : list A) : l <> [] -> length l <> 0%nat.
Proof. destruct l; [intros H; now elim H|discriminate]. Qed.

Section Broadcast.
Variable quadratic_assignment : matrix -> matrix -> bool -> result (list nat).

Lemma dist_single_conjugate (n : nat) (G b : matrix) (matcher : string)
    (perm : list nat) :
  (if matcher =? "ID" then Ok (range n) else quadratic_assignment G b true)
  = Ok perm ->
  matcher = "ID" \/ matcher = "FAQ" ->
  GraphSpaceGeometry.dist quadratic_assignment (graph_space_geometry n)
    (Array (Rank2 G)) (Array (Rank2 b)) matcher
  = Ok (Scalar (MatricesMetric.frobenius_dist G (conjugate n b perm))).
Proof.
  intros Hperm Hm. unfold GraphSpaceGeometry.dist, GraphSpaceGeometry.select_matcher.
  cbn -[GraphSpace.permute String.eqb].
  destruct Hm as [-> | ->]; cbn -[GraphSpace.permute] in Hperm |- *.
  - injection Hperm as <-. now rewrite permute_single_conjugate.
  - rewrite Hperm. cbn -[GraphSpace.permute].
    now rewrite permute_single_conjugate.
Qed.

Lemma dist_batch_conjugate (n : nat) (G : matrix) (B : list matrix)
    (matcher : string) (perms : list (list nat)) :
  (if matcher =? "ID"
   then Ok (repeat (range n) (length B))
   else comprehension
          (fun xy : matrix * matrix =>
             quadratic_assignment (fst xy) (snd xy) true)
          (zip (repeat G (length B)) B))
  = Ok perms ->
  matcher = "ID" \/ matcher = "FAQ" ->
  B <> [] ->
  length perms = length B ->
  GraphSpaceGeometry.dist quadratic_assignment (graph_space_geometry n)
    (Array (Rank2 G)) (Array (Rank3 B)) matcher
  = Ok (Vector
          (map (MatricesMetric.frobenius_dist G)
               (map (fun gp : matrix * list nat => conjugate n (fst gp) (snd gp))
                    (combine B perms)))).
Proof.
  intros Hperm Hm HB Hl. apply length_nonempty in HB.
  assert (Hpermuted :
    GraphSpace.permute (graph_space n) (Array (Rank3 B)) perms
    = Ok (Nd (Rank3 (map (fun gp : matrix * list nat =>
                            conjugate n (fst gp) (snd gp))
                         (combine B perms))))).
  { rewrite permute_batch_enough by lia.
    rewrite gs_array_length; [reflexivity|].
    rewrite length_map, length_combine. lia. }
  unfold GraphSpaceGeometry.dist, GraphSpaceGeometry.select_matcher.
  cbn -[GraphSpace.permute String.eqb gs_stack range].
  destruct Hm as [-> | ->]; cbn -[GraphSpace.permute gs_stack range] in Hperm |- *.
  - injection Hperm as Hperm. rewrite Hperm, Hpermuted. reflexivity.
  - rewrite gs_stack_repeat by assumption. cbn [bind].
    rewrite Hperm. cbn -[GraphSpace.permute].
    rewrite Hpermuted. reflexivity.
Qed.

(** When the solver answers for every graph of the batch, the comprehension
    of [faq_matching] collects its answers in order. *)
Lemma faq_comprehension (G : matrix) (B : list matrix) :
  (forall b, In b B -> exists perm, quadratic_assignment G b true = Ok perm) ->
  exists perms : list (list nat),
    comprehension
      (fun xy : matrix * matrix => quadratic_assignment (fst xy) (snd xy) true)
      (zip (repeat G (length B)) B)
    = Ok perms
    /\ length perms = length B
    /\ forall i, (i < length B)%nat ->
         quadratic_assignment G (nth i B []) true = Ok (nth i perms []).
Proof.
  induction B as [|b B IH]; intros Hall.
  - exists []. repeat split. intros i Hi. simpl in Hi. lia.
  - destruct (Hall b (or_introl eq_refl)) as [perm Hperm].
    destruct IH as [perms [Hc [Hl Hn]]];
      [intros b' Hb'; apply Hall; now right|].
    exists (perm :: perms). unfold zip in Hc |- *. cbn. rewrite Hperm, Hc. cbn.
    repeat split; [now rewrite Hl|].
    intros [|i] Hi; [exact Hperm|]. apply Hn. lia.
Qed.

Lemma nth_repeat_lt {A : Type} (a d : A) (k i : nat) :
  (i < k)%nat -> nth i (repeat a k) d = a.
Proof.
  intros Hi. rewrite (nth_indep _ d a) by (now rewrite repeat_length).
  apply nth_repeat.
Qed.

(** C6: the distance from a single graph to a batch of [k] graphs, [k] at
    least one, is a vector of [k] distances, and entry [i] is the distance
    from the single graph to graph [i] of the batch computed on that pair
    alone; under the identity matcher always, under the FAQ matcher when the
    solver answers on every pair. *)
Theorem dist_broadcast (n : nat) (G : matrix) (B : list matrix)
    (matcher : string) :
  B <> [] ->
  matcher = "ID"
  \/ (matcher = "FAQ"
      /\ forall b, In b B ->
           exists perm, quadratic_assignment G b true = Ok perm) ->
  exists ds : list R,
    GraphSpaceGeometry.dist quadratic_assignment (graph_space_geometry n)
      (Array (Rank2 G)) (Array (Rank3 B)) matcher
    = Ok (Vector ds)
    /\ length ds = length B
    /\ forall i, (i < length B)%nat ->
         GraphSpaceGeometry.dist quadratic_assignment (graph_space_geometry n)
           (Array (Rank2 G)) (Array (Rank2 (nth i B []))) matcher
         = Ok (Scalar (nth i ds 0)).
Proof.
  intros HB Hm.
  assert (Hperms : exists perms : list (list nat),
    (if matcher =? "ID"
     then Ok (repeat (range n) (length B))
     else comprehension
            (fun xy : matrix * matrix =>
               quadratic_assignment (fst xy) (snd xy) true)
            (zip (repeat G (length B)) B))
    = Ok perms
    /\ length perms = length B
    /\ forall i, (i < length B)%nat ->
         (if matcher =? "ID" then Ok (range n)
          else quadratic_assignment G (nth i B []) true)
         = Ok (nth i perms [])).
  { destruct Hm as [-> | [-> Hall]]; cbn.
    - eexists. split; [reflexivity|]. split; [apply repeat_length|].
      intros i Hi. now rewrite nth_repeat_lt.
    - now apply faq_comprehension. }
  assert (Hm' : matcher = "ID" \/ matcher = "FAQ") by (destruct Hm as [?|[? _]]; auto).
  destruct Hperms as [perms [Hc [Hl Hn]]].
  eexists. split; [now apply (dist_batch_conjugate n G B matcher perms Hc Hm')|].
  split; [rewrite !length_map, length_combine; lia|].
  intros i Hi.
  rewrite (dist_single_conjugate n G (nth i B []) matcher (nth i perms []))
    by (try apply Hn; assumption).
  do 2 f_equal.
  rewrite (nth_indep _ 0 (MatricesMetric.frobenius_dist G []))
    by (rewrite !length_map, length_combine; lia).
  rewrite (map_nth (MatricesMetric.frobenius_dist G)).
  now rewrite nth_conjugates by lia.
Qed.

End Broadcast.

Lemma dist_broadcast_witness :
  exists ds : list R,
    GraphSpaceGeometry.dist failing_solver (graph_space_geometry 3)
      (Array (Rank2 path_graph))
      (Array (Rank3 [path_graph; [[0; 0; 0]; [0; 0; 0]; [0; 0; 0]]])) "ID"
    = Ok (Vector ds)
    /\ length ds = 2%nat
    /\ forall i, (i < 2)%nat ->
         GraphSpaceGeometry.dist failing_solver (graph_space_geometry 3)
           (Array (Rank2 path_graph))
           (Array (Rank2 (nth i [path_graph; [[0; 0; 0]; [0; 0; 0]; [0; 0; 0]]] [])))
           "ID"
         = Ok (Scalar (nth i ds 0)).
Proof.
  apply (dist_broadcast failing_solver 3 path_graph
           [path_graph; [[0; 0; 0]; [0; 0; 0]; [0; 0; 0]]] "ID").
  - discriminate.
  - left. reflexivity.
Defined.

(** * Further properties *)

(** ** The decisions on squeezing ([vectorization.py]) *)

Lemma squeeze_output_dim_0_loop_true
    (pairs : list (option Vectorization.shape * string)) :
  Vectorization.squeeze_output_dim_0_loop pairs = Vectorization.Return true
  <-> Forall Vectorization.below_vect_ndim pairs.
Proof.
  induction pairs as [|[in_shape point_type] rest IH];
    cbn [Vectorization.squeeze_output_dim_0_loop].
  - split; [constructor|reflexivity].
  - rewrite Forall_cons_iff. unfold Vectorization.below_vect_ndim at 1.
    cbn [fst snd]. destruct in_shape as [in_shape|]; cbn [option_map].
    + destruct (String.eqb_spec point_type "else") as [He|He]; cbn [negb].
      * rewrite IH. intuition.
      * destruct (Vectorization.lookup Vectorization.POINT_TYPES_TO_NDIMS point_type)
          as [vect_ndim|e] eqn:Hl.
        -- destruct (Nat.leb_spec (length in_shape) vect_ndim) as [Hle|Hgt].
           ++ destruct (Nat.eqb_spec (length in_shape) vect_ndim) as [Heq|Hne].
              ** split; [intros Hd; discriminate Hd|].
                 intros [[Habs|[v [Hv Hlt]]] _]; [contradiction|].
                 injection Hv as <-. lia.
              ** rewrite IH. split; [|intuition].
                 intros H. split; [|exact H]. right. exists vect_ndim.
                 split; [reflexivity|lia].
           ++ split; [intros Hd; discriminate Hd|].
              intros [[Habs|[v [Hv Hlt]]] _]; [contradiction|].
              injection Hv as <-. lia.
        -- split; [intros Hd; discriminate Hd|].
           intros [[Habs|[v [Hv Hlt]]] _]; [contradiction|discriminate].
    + rewrite IH. intuition.
Qed.

(** X1: [squeeze_output_dim_0] answers True exactly when every input it
    examines has fewer axes than the vectorized form of its point type. *)
Theorem squeeze_output_dim_0_true
    (initial_shapes : list (option Vectorization.shape))
    (point_types : list string) :
  Vectorization.squeeze_output_dim_0 initial_shapes point_types
  = Vectorization.Return true
  <-> Forall Vectorization.below_vect_ndim (zip initial_shapes point_types).
Proof. apply squeeze_output_dim_0_loop_true. Qed.

Lemma squeeze_output_dim_0_loop_false
    (pairs : list (option Vectorization.shape * string)) :
  Vectorization.squeeze_output_dim_0_loop pairs = Vectorization.Return false
  <-> exists before pair after,
        pairs = (before ++ pair :: after)%list
        /\ Forall Vectorization.below_vect_ndim before
        /\ Vectorization.at_vect_ndim pair.
Proof.
  induction pairs as [|[in_shape point_type] rest IH].
  - simpl. split; [intros Hd; discriminate Hd|].
    intros [before [pair [after [H _]]]]. destruct before; discriminate.
  - assert (Hskip :
      Vectorization.below_vect_ndim (in_shape, point_type) ->
      ~ Vectorization.at_vect_ndim (in_shape, point_type) ->
      ((exists before pair after,
          rest = (before ++ pair :: after)%list
          /\ Forall Vectorization.below_vect_ndim before
          /\ Vectorization.at_vect_ndim pair)
       <-> exists before pair after,
          (in_shape, point_type) :: rest = (before ++ pair :: after)%list
          /\ Forall Vectorization.below_vect_ndim before
          /\ Vectorization.at_vect_ndim pair)).
    { intros Hb Hn. split.
      - intros [before [pair [after [Hr [Hf Ha]]]]].
        exists ((in_shape, point_type) :: before), pair, after.
        split; [now rewrite Hr|]. split; [now constructor|exact Ha].
      - intros [before [pair [after [Hr [Hf Ha]]]]].
        destruct before as [|b before]; simpl in Hr; injection Hr as <- ->.
        + contradiction.
        + exists before, pair, after. split; [reflexivity|].
          split; [now inversion Hf|exact Ha]. }
    cbn [Vectorization.squeeze_output_dim_0_loop].
    destruct in_shape as [in_shape|]; cbn [option_map].
    + destruct (String.eqb_spec point_type "else") as [He|He]; cbn [negb].
      * rewrite IH. apply Hskip.
        -- now left.
        -- intros [s [_ [Hne _]]]. now apply Hne.
      * destruct (Vectorization.lookup Vectorization.POINT_TYPES_TO_NDIMS point_type)
          as [vect_ndim|e] eqn:Hl.
        -- destruct (Nat.leb_spec (length in_shape) vect_ndim) as [Hle|Hgt].
           ++ destruct (Nat.eqb_spec (length in_shape) vect_ndim) as [Heq|Hne].
              ** split; [|reflexivity]. intros _.
                 exists [], (Some in_shape, point_type), rest.
                 split; [reflexivity|]. split; [constructor|].
                 exists in_shape. cbn [fst snd]. now rewrite Hl, Heq.
              ** rewrite IH. apply Hskip.
                 --- right. exists vect_ndim. cbn [snd]. split; [exact Hl|lia].
                 --- intros [s [Hs [_ Hv]]]. cbn [fst snd] in Hs, Hv.
                     injection Hs as <-. rewrite Hl in Hv. injection Hv as Hv. lia.
           ++ split; [intros Hd; discriminate Hd|].
              intros [before [pair [after [Hr [Hf Ha]]]]].
              destruct before as [|b before]; simpl in Hr; injection Hr as <- ->.
              ** destruct Ha as [s [Hs [_ Hv]]]. cbn [fst snd] in Hs, Hv.
                 injection Hs as <-. rewrite Hl in Hv. injection Hv as Hv. lia.
              ** inversion Hf as [|? ? Hb _]; subst.
                 destruct Hb as [Hb|[v [Hv Hlt]]]; [contradiction|].
                 cbn [snd] in Hv. rewrite Hl in Hv. injection Hv as <-. lia.
        -- split; [intros Hd; discriminate Hd|].
           intros [before [pair [after [Hr [Hf Ha]]]]].
           destruct before as [|b before]; simpl in Hr; injection Hr as <- ->.
           ** destruct Ha as [s [_ [_ Hv]]]. cbn [snd] in Hv. congruence.
           ** inversion Hf as [|? ? Hb _]; subst.
              destruct Hb as [Hb|[v [Hv _]]]; [contradiction|].
              cbn [snd] in Hv. congruence.
    + rewrite IH. apply Hskip.
      * exact I.
      * intros [s [Hs _]]. discriminate.
Qed.

(** X2: [squeeze_output_dim_0] answers False exactly when some input is
    already in vectorized form and every input before it has fewer axes
    than its vectorized form; the inputs after it are not examined. *)
Theorem squeeze_output_dim_0_false
    (initial_shapes : list (option Vectorization.shape))
    (point_types : list string) :
  Vectorization.squeeze_output_dim_0 initial_shapes point_types
  = Vectorization.Return false
  <-> exists before pair after,
        zip initial_shapes point_types = (before ++ pair :: after)%list
        /\ Forall Vectorization.below_vect_ndim before
        /\ Vectorization.at_vect_ndim pair.
Proof. apply squeeze_output_dim_0_loop_false. Qed.

Lemma combine_surplus {A B : Type} (l : list A) (l' more : list B) :
  (length l <= length l')%nat -> combine l (l' ++ more) = combine l l'.
Proof.
  revert l'; induction l as [|a l IH]; intros l' Hle; [reflexivity|].
  destruct l' as [|b l']; simpl in Hle; [lia|].
  simpl. f_equal. apply IH. lia.
Qed.

(** X3: the point types listed beyond the recorded shapes (those of
    optional inputs that were not given) are not read by either decision. *)
Theorem squeeze_output_surplus_types
    (result : Vectorization.shape)
    (initial_shapes : list (option Vectorization.shape))
    (point_types more : list string) :
  (length initial_shapes <= length point_types)%nat ->
  Vectorization.squeeze_output_dim_0 initial_shapes (point_types ++ more)
  = Vectorization.squeeze_output_dim_0 initial_shapes point_types
  /\ Vectorization.squeeze_output_dim_1 result initial_shapes (point_types ++ more)
     = Vectorization.squeeze_output_dim_1 result initial_shapes point_types.
Proof.
  intros Hle.
  unfold Vectorization.squeeze_output_dim_0, Vectorization.squeeze_output_dim_1, zip.
  now rewrite combine_surplus.
Qed.

Lemma squeeze_output_surplus_types_witness :
  Vectorization.squeeze_output_dim_0 [Some [3%nat]]
    (["vector"] ++ ["matrix"; "unknown"])
  = Vectorization.squeeze_output_dim_0 [Some [3%nat]] ["vector"]
  /\ Vectorization.squeeze_output_dim_1 [1%nat; 1%nat] [Some [3%nat]]
       (["vector"] ++ ["matrix"; "unknown"])
     = Vectorization.squeeze_output_dim_1 [1%nat; 1%nat] [Some [3%nat]] ["vector"].
Proof.
  apply (squeeze_output_surplus_types [1%nat; 1%nat] [Some [3%nat]]
           ["vector"] ["matrix"; "unknown"]).
  simpl. lia.
Defined.

Lemma squeeze_output_dim_1_loop_true
    (pairs : list (option Vectorization.shape * string)) :
  Vectorization.squeeze_output_dim_1_loop pairs = Vectorization.Return true
  <-> Forall Vectorization.scalar_below_2 pairs.
Proof.
  induction pairs as [|[in_shape point_type] rest IH];
    cbn [Vectorization.squeeze_output_dim_1_loop].
  - split; [constructor|reflexivity].
  - rewrite Forall_cons_iff. unfold Vectorization.scalar_below_2 at 1.
    cbn [fst snd]. destruct in_shape as [in_shape|].
    + destruct (String.eqb_spec point_type "else") as [He|He]; cbn [negb].
      * rewrite IH. subst point_type. split; [|intuition].
        intros H. split; [discriminate|exact H].
      * destruct (String.eqb_spec point_type "scalar") as [Hs|Hs].
        -- destruct (Nat.leb_spec (length in_shape) 2) as [Hle|Hgt].
           ++ destruct (Nat.eqb_spec (length in_shape) 2) as [Heq|Hne].
              ** split; [intros Hd; discriminate Hd|].
                 intros [H _]. specialize (H Hs). lia.
              ** rewrite IH. split; [|intuition].
                 intros H. split; [intros _; lia|exact H].
           ++ split; [intros Hd; discriminate Hd|].
              intros [H _]. specialize (H Hs). lia.
        -- rewrite IH. split; [|intuition].
           intros H. split; [intros Habs; contradiction|exact H].
    + rewrite IH. intuition.
Qed.

(** X4: [squeeze_output_dim_1] answers True exactly when the result has two
    axes with the second of size one and no examined scalar input was given
    with two axes (or more). *)
Theorem squeeze_output_dim_1_true
    (result : Vectorization.shape)
    (initial_shapes : list (option Vectorization.shape))
    (point_types : list string) :
  Vectorization.squeeze_output_dim_1 result initial_shapes point_types
  = Vectorization.Return true
  <-> Vectorization.is_scalar result = true
      /\ Forall Vectorization.scalar_below_2 (zip initial_shapes point_types).
Proof.
  unfold Vectorization.squeeze_output_dim_1.
  destruct (Vectorization.is_scalar result); cbn [negb].
  - rewrite squeeze_output_dim_1_loop_true. intuition.
  - split; [intros Hd; discriminate Hd|intros [Hd _]; discriminate Hd].
Qed.

Lemma squeeze_output_dim_1_loop_no_scalar
    (pairs : list (option Vectorization.shape * string)) :
  (forall pair, In pair pairs -> snd pair <> "scalar") ->
  Vectorization.squeeze_output_dim_1_loop pairs = Vectorization.Return true.
Proof.
  intros H. apply squeeze_output_dim_1_loop_true. apply Forall_forall.
  intros [in_shape point_type] Hin. unfold Vectorization.scalar_below_2.
  cbn [fst snd]. destruct in_shape; [|exact I].
  intros Hs. exfalso. now apply (H _ Hin).
Qed.

(** X5: when no point type is 'scalar', [squeeze_output_dim_1] never fails
    and answers whether the result has two axes with the second of size
    one, whatever the inputs' shapes are: the output of a function of
    vectors or matrices is squeezed on dimension 1 as soon as it has that
    shape. *)
Theorem squeeze_output_dim_1_without_scalars
    (result : Vectorization.shape)
    (initial_shapes : list (option Vectorization.shape))
    (point_types : list string) :
  (forall point_type, In point_type point_types -> point_type <> "scalar") ->
  Vectorization.squeeze_output_dim_1 result initial_shapes point_types
  = Vectorization.Return (Vectorization.is_scalar result).
Proof.
  intros H. unfold Vectorization.squeeze_output_dim_1.
  destruct (Vectorization.is_scalar result); cbn [negb]; [|reflexivity].
  apply squeeze_output_dim_1_loop_no_scalar.
  intros [in_shape point_type] Hin. cbn [snd].
  apply H. unfold zip in Hin. now apply in_combine_r in Hin.
Qed.

Lemma squeeze_output_dim_1_without_scalars_witness :
  Vectorization.squeeze_output_dim_1 [4%nat; 1%nat]
    [Some [4%nat; 1%nat]; None] ["vector"; "matrix"]
  = Vectorization.Return (Vectorization.is_scalar [4%nat; 1%nat]).
Proof.
  apply (squeeze_output_dim_1_without_scalars [4%nat; 1%nat]
           [Some [4%nat; 1%nat]; None] ["vector"; "matrix"]).
  intros point_type [<-|[<-|[]]]; discriminate.
Defined.

(** ** [permute] on any total space *)

Lemma permute_single_pair (self : GraphSpace.t) (G : matrix) (perm : list nat) :
  GraphSpace.permute self (Array (Rank2 G)) perm
  = (permuted <- permute_pair self G perm ;; Ok (Rank2 permuted)).
Proof.
  rewrite permute_single. unfold permute_pair.
  destruct (GraphSpace.all_equal_nodes (GraphSpace.nodes self) perm); reflexivity.
Qed.

Lemma permute_single_ok (self : GraphSpace.t) (G G' : matrix) (perm : list nat) :
  GraphSpace.permute self (Array (Rank2 G)) perm = Ok (Rank2 G')
  <-> permute_pair self G perm = Ok G'.
Proof.
  rewrite permute_single_pair. destruct (permute_pair self G perm); cbn.
  - split; intros H; injection H as ->; reflexivity.
  - split; intros H; discriminate H.
Qed.

Lemma permute_single_raise (self : GraphSpace.t) (G : matrix) (perm : list nat)
    (e : exn) :
  GraphSpace.permute self (Array (Rank2 G)) perm = Raise e
  <-> permute_pair self G perm = Raise e.
Proof.
  rewrite permute_single_pair. destruct (permute_pair self G perm); cbn.
  - split; intros H; discriminate H.
  - split; intros H; injection H as ->; reflexivity.
Qed.

Lemma permute_loop_pass_pair (self : GraphSpace.t) (graphs : list matrix)
    (i : nat) (perm : list nat) (rest : list (list nat)) :
  GraphSpace.permute_loop self graphs i (perm :: rest)
  = (graph <- getitem graphs i ;;
     item <- permute_pair self graph perm ;;
     result <- GraphSpace.permute_loop self graphs (S i) rest ;;
     Ok (item :: result)).
Proof.
  cbn [GraphSpace.permute_loop]. unfold permute_pair.
  destruct (GraphSpace.all_equal_nodes (GraphSpace.nodes self) perm);
    destruct (getitem graphs i); reflexivity.
Qed.

(** X6: [permute] returns the graph unchanged on every total space, without
    a call of the multiply, exactly when every entry of the permutation is
    the number of nodes; the empty permutation is such a case. *)
Theorem permute_unchanged_on_every_total_space
    (nodes : nat) (G : matrix) (perm : list nat) :
  (forall ts : TotalSpace.t,
     GraphSpace.permute
       {| GraphSpace.nodes := nodes; GraphSpace.total_space := ts |}
       (Array (Rank2 G)) perm
     = Ok (Rank2 G))
  <-> GraphSpace.all_equal_nodes nodes perm = true.
Proof.
  split.
  - intros H. specialize (H (failing_total_space nodes nodes)).
    rewrite permute_single in H. cbn in H.
    destruct (GraphSpace.all_equal_nodes nodes perm); [reflexivity|discriminate H].
  - intros H ts. rewrite permute_single. cbn. now rewrite H.
Qed.

Lemma permute_loop_ok (self : GraphSpace.t) (graphs : list matrix)
    (perms : list (list nat)) (i : nat) (result : list matrix) :
  (i + length perms <= length graphs)%nat ->
  GraphSpace.permute_loop self graphs i perms = Ok result
  <-> length result = length perms
      /\ forall k, (k < length perms)%nat ->
           permute_pair self (nth (i + k) graphs []) (nth k perms [])
           = Ok (nth k result []).
Proof.
  revert i result; induction perms as [|perm rest IH]; intros i result Hle.
  - cbn. split.
    + intros H. injection H as <-. split; [reflexivity|]. intros k Hk. lia.
    + intros [Hl _]. destruct result; [reflexivity|discriminate].
  - simpl in Hle. rewrite permute_loop_pass_pair.
    rewrite (getitem_nth graphs i []) by lia. cbn [bind]. split.
    + intros H.
      destruct (permute_pair self (nth i graphs []) perm) as [item|e] eqn:Hitem;
        [|discriminate H]. cbn [bind] in H.
      destruct (GraphSpace.permute_loop self graphs (S i) rest) as [r|e] eqn:Hr;
        [|discriminate H]. cbn [bind] in H. injection H as <-.
      apply IH in Hr; [|lia]. destruct Hr as [Hl Hn].
      split; [simpl; now rewrite Hl|].
      intros [|k] Hk.
      * rewrite Nat.add_0_r. exact Hitem.
      * simpl in Hk. replace (i + S k)%nat with (S i + k)%nat by lia.
        apply Hn. lia.
    + intros [Hl Hn]. destruct result as [|item r]; [discriminate Hl|].
      pose proof (Hn 0%nat ltac:(simpl; lia)) as H0.
      rewrite Nat.add_0_r in H0. cbn [nth] in H0. rewrite H0. cbn [bind].
      assert (Hr : GraphSpace.permute_loop self graphs (S i) rest = Ok r).
      { apply IH; [lia|]. split; [simpl in Hl; lia|].
        intros k Hk. specialize (Hn (S k) ltac:(simpl; lia)).
        replace (i + S k)%nat with (S i + k)%nat in Hn by lia. exact Hn. }
      rewrite Hr. reflexivity.
Qed.

Lemma gs_array_injective (l l' : list matrix) :
  gs_array l = gs_array l' -> l = l'.
Proof.
  destruct l, l'; cbn; intros H; try discriminate H; [reflexivity|].
  congruence.
Qed.

(** X7: with a graph for every permutation, and on every total space, the
    batch call of [permute] returns a batch exactly when each pair permutes
    when taken alone, and item [i] of that batch is what [permute] returns
    for graph [i] and permutation [i] alone; what is returned is the array
    that [gs.array] makes of the items, the array with one axis when there
    is no permutation. *)
Theorem permute_batch_pairwise (self : GraphSpace.t) (graphs : list matrix)
    (perms : list (list nat)) (result : list matrix) :
  (length perms <= length graphs)%nat ->
  GraphSpace.permute self (Array (Rank3 graphs)) perms = Ok (gs_array result)
  <-> length result = length perms
      /\ forall i, (i < length perms)%nat ->
           GraphSpace.permute self (Array (Rank2 (nth i graphs []))) (nth i perms [])
           = Ok (Rank2 (nth i result [])).
Proof.
  intros Hle.
  assert (Hiff : GraphSpace.permute self (Array (Rank3 graphs)) perms
                 = Ok (gs_array result)
                 <-> GraphSpace.permute_loop self graphs 0 perms = Ok result).
  { unfold GraphSpace.permute. cbn [_input_manipulation].
    destruct (GraphSpace.permute_loop self graphs 0 perms); cbn [bind].
    - split; intros H; injection H as H.
      + now rewrite (gs_array_injective _ _ H).
      + now rewrite H.
    - split; intros H; discriminate H. }
  rewrite Hiff, permute_loop_ok by (simpl; lia).
  split; intros [Hl Hn]; (split; [exact Hl|]); intros i Hi;
    specialize (Hn i Hi); cbn [Nat.add] in *; now apply permute_single_ok.
Qed.

Lemma permute_batch_pairwise_witness :
  GraphSpace.permute (graph_space 3)
    (Array (Rank3 [path_graph; path_graph])) [[1; 2; 0]; [0; 1; 2]]%nat
  = Ok (Rank3 [[[0; 1; 0]; [0; 0; 0]; [1; 0; 0]]; path_graph])
  <-> length [[[0; 1; 0]; [0; 0; 0]; [1; 0; 0]]; path_graph]
      = length [[1; 2; 0]; [0; 1; 2]]%nat
      /\ forall i, (i < length [[1; 2; 0]; [0; 1; 2]]%nat)%nat ->
           GraphSpace.permute (graph_space 3)
             (Array (Rank2 (nth i [path_graph; path_graph] [])))
             (nth i [[1; 2; 0]; [0; 1; 2]]%nat [])
           = Ok (Rank2 (nth i [[[0; 1; 0]; [0; 0; 0]; [1; 0; 0]]; path_graph] [])).
Proof.
  apply (permute_batch_pairwise (graph_space 3) [path_graph; path_graph]
           [[1; 2; 0]; [0; 1; 2]]%nat
           [[[0; 1; 0]; [0; 0; 0]; [1; 0; 0]]; path_graph]).
  simpl. lia.
Defined.

Lemma permute_loop_raise (self : GraphSpace.t) (graphs : list matrix)
    (perms : list (list nat)) (i j : nat) (e : exn) :
  (i + length perms <= length graphs)%nat ->
  (j < length perms)%nat ->
  (forall k, (k < j)%nat ->
     exists item,
       permute_pair self (nth (i + k) graphs []) (nth k perms []) = Ok item) ->
  permute_pair self (nth (i + j) graphs []) (nth j perms []) = Raise e ->
  GraphSpace.permute_loop self graphs i perms = Raise e.
Proof.
  revert i j; induction perms as [|perm rest IH]; intros i j Hle Hj Hbefore Hat.
  - simpl in Hj. lia.
  - simpl in Hle, Hj. rewrite permute_loop_pass_pair.
    rewrite (getitem_nth graphs i []) by lia. cbn [bind].
    destruct j as [|j].
    + rewrite Nat.add_0_r in Hat. cbn [nth] in Hat. now rewrite Hat.
    + destruct (Hbefore 0%nat ltac:(lia)) as [item Hitem].
      rewrite Nat.add_0_r in Hitem. cbn [nth] in Hitem. rewrite Hitem. cbn [bind].
      rewrite (IH (S i) j); [reflexivity|lia|lia| |].
      * intros k Hk. specialize (Hbefore (S k) ltac:(lia)).
        replace (i + S k)%nat with (S i + k)%nat in Hbefore by lia. exact Hbefore.
      * replace (i + S j)%nat with (S i + j)%nat in Hat by lia. exact Hat.
Qed.

(** X8: on every total space the batch call of [permute] raises what the
    first failing pair raises: when the pairs before position [j] permute
    and pair [j] alone raises [e], the batch call raises [e] and returns no
    part of the batch. *)
Theorem permute_batch_first_failure (self : GraphSpace.t)
    (graphs : list matrix) (perms : list (list nat)) (j : nat) (e : exn) :
  (length perms <= length graphs)%nat ->
  (j < length perms)%nat ->
  (forall k, (k < j)%nat ->
     exists permuted,
       GraphSpace.permute self (Array (Rank2 (nth k graphs []))) (nth k perms [])
       = Ok (Rank2 permuted)) ->
  GraphSpace.permute self (Array (Rank2 (nth j graphs []))) (nth j perms [])
  = Raise e ->
  GraphSpace.permute self (Array (Rank3 graphs)) perms = Raise e.
Proof.
  intros Hle Hj Hbefore Hat.
  unfold GraphSpace.permute at 1. cbn [_input_manipulation].
  rewrite (permute_loop_raise self graphs perms 0 j e); try reflexivity;
    try (simpl; lia).
  - intros k Hk. destruct (Hbefore k Hk) as [permuted H].
    exists permuted. now apply permute_single_ok.
  - now apply permute_single_raise.
Qed.

Lemma permute_batch_first_failure_witness :
  GraphSpace.permute (GraphSpace.init 3 failing_total_space)
    (Array (Rank3 [path_graph; path_graph])) [[3; 3; 3]; [0; 1; 2]]%nat
  = Raise (ValueError "mul failed").
Proof.
  apply (permute_batch_first_failure (GraphSpace.init 3 failing_total_space)
           [path_graph; path_graph] [[3; 3; 3]; [0; 1; 2]]%nat 1
           (ValueError "mul failed")).
  - simpl. lia.
  - simpl. lia.
  - intros k Hk. assert (k = 0%nat) as -> by lia. eexists. reflexivity.
  - reflexivity.
Defined.

(** ** The inverse permutation *)

Lemma index_of_In (x : nat) (l : list nat) :
  In x l -> (index_of x l < length l)%nat /\ nth (index_of x l) l 0%nat = x.
Proof.
  induction l as [|y l IH]; intros Hin; [contradiction|].
  simpl. destruct (Nat.eqb_spec x y) as [->|Hne].
  - split; [lia|reflexivity].
  - destruct Hin as [Heq|Hin]; [congruence|].
    destruct (IH Hin) as [Hlt Hnth]. split; [lia|exact Hnth].
Qed.

Lemma index_of_nth (l : list nat) (i : nat) :
  NoDup l -> (i < length l)%nat -> index_of (nth i l 0%nat) l = i.
Proof.
  intros Hnd Hi.
  assert (Hin : In (nth i l 0%nat) l) by (now apply nth_In).
  destruct (index_of_In _ _ Hin) as [Hlt Hnth].
  now apply (proj1 (NoDup_nth l 0%nat) Hnd).
Qed.

Lemma is_permutation_NoDup (n : nat) (p : list nat) :
  is_permutation n p = true -> NoDup p.
Proof.
  unfold is_permutation. intros H. apply andb_true_iff in H.
  now apply no_duplicate_NoDup.
Qed.

(** A permutation of the nodes reaches every node. *)
Lemma is_permutation_In (n : nat) (p : list nat) (i : nat) :
  is_permutation n p = true -> (i < n)%nat -> In i p.
Proof.
  intros Hp Hi.
  pose proof (is_permutation_NoDup n p Hp) as Hnd.
  pose proof (is_permutation_node_sequence n p Hp) as Hs.
  apply (@NoDup_length_incl _ p (seq 0 n) Hnd).
  - rewrite length_seq, (node_sequence_length n p Hs). lia.
  - intros x Hx. apply in_seq.
    destruct (In_nth p x 0%nat Hx) as [k [Hk <-]].
    rewrite (node_sequence_length n p Hs) in Hk.
    pose proof (node_sequence_nth n p k Hs Hk). lia.
  - apply in_seq. lia.
Qed.

Lemma nth_inverse (n : nat) (p : list nat) (i : nat) :
  (i < n)%nat -> nth i (inverse n p) 0%nat = index_of i p.
Proof.
  intros Hi. unfold inverse, range.
  rewrite (nth_indep _ 0%nat (index_of 0%nat p))
    by (now rewrite length_map, length_seq).
  rewrite (map_nth (fun i => index_of i p)). now rewrite seq_nth.
Qed.

Lemma is_permutation_inverse (n : nat) (p : list nat) :
  is_permutation n p = true -> is_permutation n (inverse n p) = true.
Proof.
  intros Hp. pose proof (is_permutation_node_sequence n p Hp) as Hs.
  pose proof (node_sequence_length n p Hs) as Hl.
  unfold is_permutation. apply andb_true_iff. split.
  - unfold node_sequence, inverse, range.
    rewrite length_map, length_seq, Nat.eqb_refl. simpl.
    apply forallb_forall. intros x Hx. apply in_map_iff in Hx.
    destruct Hx as [i [<- Hi]]. apply in_seq in Hi. apply Nat.ltb_lt.
    rewrite <- Hl. apply index_of_In. apply (is_permutation_In n); [exact Hp|lia].
  - apply no_duplicate_NoDup. unfold inverse, range.
    apply NoDup_map_NoDup_ForallPairs; [|apply seq_NoDup].
    intros x y Hx Hy Hxy. apply in_seq in Hx, Hy.
    destruct (index_of_In x p) as [_ Hnx];
      [apply (is_permutation_In n); [exact Hp|lia]|].
    destruct (index_of_In y p) as [_ Hny];
      [apply (is_permutation_In n); [exact Hp|lia]|].
    congruence.
Qed.

(** X9: the inverse permutation undoes [permute]: a graph of the space
    permuted by a permutation and then by its inverse, or by the inverse
    and then by the permutation, is the graph itself; the inverse is a
    permutation too. *)
Theorem permute_inverse (n : nat) (G : matrix) (perm : list nat) (atol : R) :
  GraphSpace.belongs (graph_space n) (Array (Rank2 G)) atol = Ok (BoolScalar true) ->
  is_permutation n perm = true ->
  is_permutation n (inverse n perm) = true
  /\ (exists G1 : matrix,
        GraphSpace.permute (graph_space n) (Array (Rank2 G)) perm = Ok (Rank2 G1)
        /\ GraphSpace.permute (graph_space n) (Array (Rank2 G1)) (inverse n perm)
           = Ok (Rank2 G))
  /\ (exists G2 : matrix,
        GraphSpace.permute (graph_space n) (Array (Rank2 G)) (inverse n perm)
        = Ok (Rank2 G2)
        /\ GraphSpace.permute (graph_space n) (Array (Rank2 G2)) perm
           = Ok (Rank2 G)).
Proof.
  intros HG Hp. apply belongs_has_shape in HG.
  pose proof (is_permutation_inverse n perm Hp) as Hi.
  pose proof (is_permutation_node_sequence n perm Hp) as Hs.
  pose proof (is_permutation_node_sequence n _ Hi) as Hsi.
  pose proof (node_sequence_length n perm Hs) as Hl.
  split; [exact Hi|]. split.
  - eexists. split; [now apply permute_entries|].
    rewrite permute_entries by (try assumption; apply has_shape_build_matrix).
    do 3 f_equal.
    transitivity (build_matrix n n (entry G)); [|now apply build_matrix_entry].
    apply build_matrix_ext. intros i j Hi' Hj'.
    rewrite entry_build_matrix by (now apply node_sequence_nth).
    rewrite !nth_inverse by assumption.
    destruct (index_of_In i perm (is_permutation_In n perm i Hp Hi')) as [_ ->].
    destruct (index_of_In j perm (is_permutation_In n perm j Hp Hj')) as [_ ->].
    reflexivity.
  - eexists. split; [now apply permute_entries|].
    rewrite permute_entries by (try assumption; apply has_shape_build_matrix).
    do 3 f_equal.
    transitivity (build_matrix n n (entry G)); [|now apply build_matrix_entry].
    apply build_matrix_ext. intros i j Hi' Hj'.
    rewrite entry_build_matrix by (now apply node_sequence_nth).
    rewrite !nth_inverse by (now apply node_sequence_nth).
    rewrite !index_of_nth by (try lia; now apply (is_permutation_NoDup n)).
    reflexivity.
Qed.

Lemma permute_inverse_witness :
  is_permutation 3 (inverse 3 [1; 2; 0]%nat) = true
  /\ (exists G1 : matrix,
        GraphSpace.permute (graph_space 3) (Array (Rank2 path_graph)) [1; 2; 0]%nat
        = Ok (Rank2 G1)
        /\ GraphSpace.permute (graph_space 3) (Array (Rank2 G1))
             (inverse 3 [1; 2; 0]%nat)
           = Ok (Rank2 path_graph))
  /\ (exists G2 : matrix,
        GraphSpace.permute (graph_space 3) (Array (Rank2 path_graph))
          (inverse 3 [1; 2; 0]%nat)
        = Ok (Rank2 G2)
        /\ GraphSpace.permute (graph_space 3) (Array (Rank2 G2)) [1; 2; 0]%nat
           = Ok (Rank2 path_graph)).
Proof.
  apply (permute_inverse 3 path_graph [1; 2; 0]%nat 0); reflexivity.
Defined.

(** ** Directed and undirected graphs *)

Lemma transpose_build_matrix (n : nat) (f : nat -> nat -> R) :
  transpose (build_matrix n n f) = build_matrix n n (fun i j => f j i).
Proof.
  destruct n as [|n]; [reflexivity|].
  unfold transpose. rewrite n_rows_build_matrix, n_cols_build_matrix by lia.
  apply build_matrix_ext. intros i j Hi Hj. now apply entry_build_matrix.
Qed.

Lemma transpose_has_shape (n : nat) (G : matrix) :
  Matrices.has_shape n n G = true ->
  transpose G = build_matrix n n (fun i j => entry G j i).
Proof.
  intros HG. rewrite <- (build_matrix_entry n n G HG) at 1.
  apply transpose_build_matrix.
Qed.

(** X10: [permute] commutes with transposition: reversing the edges of a
    graph of the space and permuting gives the permuted graph with its
    edges reversed; so a symmetric (undirected) graph stays symmetric
    under every permutation. *)
Theorem permute_transpose (n : nat) (G : matrix) (perm : list nat) (atol : R) :
  GraphSpace.belongs (graph_space n) (Array (Rank2 G)) atol = Ok (BoolScalar true) ->
  is_permutation n perm = true ->
  exists G' : matrix,
    GraphSpace.permute (graph_space n) (Array (Rank2 G)) perm = Ok (Rank2 G')
    /\ GraphSpace.permute (graph_space n) (Array (Rank2 (transpose G))) perm
       = Ok (Rank2 (transpose G'))
    /\ (transpose G = G -> transpose G' = G').
Proof.
  intros HG Hp. apply belongs_has_shape in HG.
  apply is_permutation_node_sequence in Hp.
  assert (Ht : GraphSpace.permute (graph_space n) (Array (Rank2 (transpose G))) perm
               = Ok (Rank2 (transpose
                    (build_matrix n n
                       (fun i j => entry G (nth i perm 0%nat) (nth j perm 0%nat)))))).
  { rewrite (transpose_has_shape n G HG).
    rewrite permute_entries by (try assumption; apply has_shape_build_matrix).
    rewrite transpose_build_matrix. do 3 f_equal.
    apply build_matrix_ext. intros i j Hi Hj.
    now rewrite entry_build_matrix by (now apply node_sequence_nth). }
  eexists. split; [now apply permute_entries|]. split; [exact Ht|].
  intros Hsym. rewrite Hsym in Ht.
  rewrite permute_entries in Ht by assumption. now injection Ht.
Qed.

Lemma permute_transpose_witness :
  exists G' : matrix,
    GraphSpace.permute (graph_space 3) (Array (Rank2 path_graph)) [1; 2; 0]%nat
    = Ok (Rank2 G')
    /\ GraphSpace.permute (graph_space 3) (Array (Rank2 (transpose path_graph)))
         [1; 2; 0]%nat
       = Ok (Rank2 (transpose G'))
    /\ (transpose path_graph = path_graph -> transpose G' = G').
Proof.
  apply (permute_transpose 3 path_graph [1; 2; 0]%nat 0); reflexivity.
Defined.

(** ** Batches of graphs of the space *)

Lemma all_belong_single (n : nat) (G : matrix) (atol : R) :
  all_belong (graph_space n) (Array (Rank2 G)) atol = Matrices.has_shape n n G.
Proof. reflexivity. Qed.

Lemma all_belong_batch (n : nat) (graphs : list matrix) (atol : R) :
  all_belong (graph_space n) (Array (Rank3 graphs)) atol = true
  <-> forall G, In G graphs -> Matrices.has_shape n n G = true.
Proof.
  unfold all_belong. cbn. rewrite forallb_forall. split.
  - intros H G HG. apply H. now apply in_map.
  - intros H b Hb. apply in_map_iff in Hb. destruct Hb as [G [<- HG]]. now apply H.
Qed.

(** X11: a batch of graphs of the space permuted by a batch of permutations
    of the nodes, at least one, is a batch of graphs of the space, one per
    permutation. *)
Theorem permute_batch_belongs (n : nat) (graphs : list matrix)
    (perms : list (list nat)) (atol : R) :
  all_belong (graph_space n) (Array (Rank3 graphs)) atol = true ->
  forallb (is_permutation n) perms = true ->
  perms <> [] ->
  (length perms <= length graphs)%nat ->
  exists result : list matrix,
    GraphSpace.permute (graph_space n) (Array (Rank3 graphs)) perms
    = Ok (Rank3 result)
    /\ length result = length perms
    /\ all_belong (graph_space n) (Array (Rank3 result)) atol = true.
Proof.
  intros HG Hp Hne Hle. rewrite all_belong_batch in HG.
  rewrite forallb_forall in Hp. apply length_nonempty in Hne.
  eexists. split.
  { rewrite permute_batch_enough by assumption.
    rewrite gs_array_length; [reflexivity|].
    rewrite length_map, length_combine. lia. }
  split.
  - rewrite length_map, length_combine. lia.
  - apply all_belong_batch. intros G' HG'. apply in_map_iff in HG'.
    destruct HG' as [[G perm] [<- Hin]]. cbn [fst snd].
    rewrite conjugate_sequence.
    + apply has_shape_build_matrix.
    + apply HG. now apply in_combine_l in Hin.
    + apply is_permutation_node_sequence. apply Hp. now apply in_combine_r in Hin.
Qed.

Lemma permute_batch_belongs_witness :
  exists result : list matrix,
    GraphSpace.permute (graph_space 3)
      (Array (Rank3 [path_graph; path_graph])) [[1; 2; 0]; [0; 2; 1]]%nat
    = Ok (Rank3 result)
    /\ length result = length [[1; 2; 0]; [0; 2; 1]]%nat
    /\ all_belong (graph_space 3) (Array (Rank3 result)) 0 = true.
Proof.
  apply (permute_batch_belongs 3 [path_graph; path_graph]
           [[1; 2; 0]; [0; 2; 1]]%nat 0).
  - reflexivity.
  - reflexivity.
  - discriminate.
  - simpl. lia.
Defined.

(** ** The identity matcher *)

Lemma conjugate_identity (n : nat) (G : matrix) :
  Matrices.has_shape n n G = true -> conjugate n G (range n) = G.
Proof.
  intros HG. pose proof (permute_identity n G HG) as H.
  rewrite permute_single_conjugate in H. now injection H.
Qed.

Lemma conjugate_identity_batch (n : nat) (graphs : list matrix) :
  (forall G, In G graphs -> Matrices.has_shape n n G = true) ->
  map (fun gp : matrix * list nat => conjugate n (fst gp) (snd gp))
      (combine graphs (repeat (range n) (length graphs)))
  = graphs.
Proof.
  induction graphs as [|G graphs IH]; intros H; [reflexivity|].
  cbn. rewrite conjugate_identity by (apply H; now left).
  f_equal. apply IH. intros G' HG'. apply H. now right.
Qed.

Lemma permute_identity_batch (n : nat) (graphs : list matrix) (atol : R) :
  graphs <> [] ->
  all_belong (graph_space n) (Array (Rank3 graphs)) atol = true ->
  GraphSpace.permute (graph_space n) (Array (Rank3 graphs))
    (repeat (range n) (length graphs))
  = Ok (Nd (Rank3 graphs)).
Proof.
  intros Hne Hb.
  rewrite permute_batch_enough by (rewrite repeat_length; lia).
  rewrite conjugate_identity_batch
    by (exact (proj1 (all_belong_batch n graphs atol) Hb)).
  rewrite gs_array_length; [reflexivity|now apply length_nonempty].
Qed.

(** Aligning by the identity matcher leaves the graphs of the space as they
    are, whatever the base graph is, unless the batch is empty. *)
Lemma id_alignment {curve : Type} (n : nat)
    (total_space_metric : nat -> nat -> Metric.t curve)
    (base target : ndarray) (atol : R) :
  (ndim base <= ndim target)%nat ->
  target <> Rank3 [] ->
  all_belong (graph_space n) (Array target) atol = true ->
  exists perm : permutation_arg target,
    GraphSpaceGeometry.id_matching
      (GraphSpaceGeometry.init (graph_space n) total_space_metric) base target
    = Ok perm
    /\ GraphSpace.permute (graph_space n) (Array target) perm = Ok (Nd target).
Proof.
  intros Hr Hne Hb.
  destruct base as [b|bs], target as [G|graphs]; cbn in Hr; try lia.
  - exists (range n). split; [reflexivity|].
    apply permute_identity. now rewrite all_belong_single in Hb.
  - exists (repeat (range n) (length graphs)). split; [reflexivity|].
    apply (permute_identity_batch n graphs atol); [congruence|exact Hb].
  - exists (repeat (range n) (length graphs)). split; [reflexivity|].
    apply (permute_identity_batch n graphs atol); [congruence|exact Hb].
Qed.

Section IdentityMatcher.
Variable quadratic_assignment : matrix -> matrix -> bool -> result (list nat).
Context {curve : Type}.
Variable total_space_metric : nat -> nat -> Metric.t curve.

Lemma select_matcher_id (self : GraphSpaceGeometry.t curve)
    (base target : ndarray) :
  GraphSpaceGeometry.select_matcher quadratic_assignment self "ID" base target
  = (perm <- GraphSpaceGeometry.id_matching self base target ;; Ok (Some perm)).
Proof. reflexivity. Qed.

Lemma aligned_id (n : nat) (base target : ndarray) (atol : R) (B : Type)
    (k : tensor -> result B) :
  (ndim base <= ndim target)%nat ->
  target <> Rank3 [] ->
  all_belong (graph_space n) (Array target) atol = true ->
  (perm <- GraphSpaceGeometry.select_matcher quadratic_assignment
             (GraphSpaceGeometry.init (graph_space n) total_space_metric)
             "ID" base target ;;
   perm <- GraphSpaceGeometry.read_perm perm ;;
   permuted <- GraphSpace.permute (graph_space n) (Array target) perm ;;
   k permuted)
  = k target.
Proof.
  intros Hr Hne Hb.
  destruct (id_alignment n total_space_metric base target atol Hr Hne Hb)
    as [perm [Hid Hperm]].
  rewrite select_matcher_id, Hid. cbn [bind GraphSpaceGeometry.read_perm].
  now rewrite Hperm.
Qed.

(** X12: under the identity matcher, and with any metric on the default
    total space, the distance between graphs of the space, neither argument
    being an empty batch, is the metric's distance between the two
    arguments as they are, the one with fewer axes first. *)
Theorem dist_id_is_metric_dist (n : nat) (graph_a graph_b : points) (atol : R) :
  _input_manipulation graph_a <> Rank3 [] ->
  _input_manipulation graph_b <> Rank3 [] ->
  all_belong (graph_space n) graph_a atol = true ->
  all_belong (graph_space n) graph_b atol = true ->
  GraphSpaceGeometry.dist quadratic_assignment
    (GraphSpaceGeometry.init (graph_space n) total_space_metric)
    graph_a graph_b "ID"
  = if (ndim (_input_manipulation graph_b) <? ndim (_input_manipulation graph_a))%nat
    then Metric.dist (total_space_metric n n)
           (_input_manipulation graph_b) (_input_manipulation graph_a)
    else Metric.dist (total_space_metric n n)
           (_input_manipulation graph_a) (_input_manipulation graph_b).
Proof.
  intros Hna Hnb Ha Hb. unfold GraphSpaceGeometry.dist.
  cbn [GraphSpaceGeometry.space GraphSpaceGeometry.init
       GraphSpaceGeometry.total_space_metric].
  destruct (Nat.ltb_spec (ndim (_input_manipulation graph_b))
                         (ndim (_input_manipulation graph_a))) as [Hlt|Hge].
  - apply (aligned_id n _ _ atol); [lia|exact Hna|exact Ha].
  - apply (aligned_id n _ _ atol); [lia|exact Hnb|exact Hb].
Qed.

(** X13: under the identity matcher, with any metric on the default total
    space and a base point with no more axes than the end point, the
    geodesic to an end point of graphs of the space that is no empty batch
    is the metric's geodesic between the two arguments as they are. *)
Theorem geodesic_id_is_metric_geodesic
    (n : nat) (base_point end_point : points) (atol : R) :
  (ndim (_input_manipulation base_point)
   <= ndim (_input_manipulation end_point))%nat ->
  _input_manipulation end_point <> Rank3 [] ->
  all_belong (graph_space n) end_point atol = true ->
  GraphSpaceGeometry.geodesic quadratic_assignment
    (GraphSpaceGeometry.init (graph_space n) total_space_metric)
    base_point end_point "ID"
  = Metric.geodesic (total_space_metric n n)
      (_input_manipulation base_point) (_input_manipulation end_point).
Proof.
  intros Hr Hne Hb. unfold GraphSpaceGeometry.geodesic.
  cbn [GraphSpaceGeometry.space GraphSpaceGeometry.init
       GraphSpaceGeometry.total_space_metric].
  now apply (aligned_id n _ _ atol).
Qed.

End IdentityMatcher.

Lemma dist_id_is_metric_dist_witness :
  GraphSpaceGeometry.dist failing_solver (graph_space_geometry 3)
    (Array (Rank3 [path_graph; path_graph])) (Point {| adj := path_graph; p := None |})
    "ID"
  = MatricesMetric.dist 3 3 (Rank2 path_graph) (Rank3 [path_graph; path_graph]).
Proof.
  apply (dist_id_is_metric_dist failing_solver MatricesMetric.init 3
           (Array (Rank3 [path_graph; path_graph]))
           (Point {| adj := path_graph; p := None |}) 0);
    try reflexivity; discriminate.
Defined.

Lemma geodesic_id_is_metric_geodesic_witness :
  GraphSpaceGeometry.geodesic failing_solver (graph_space_geometry 3)
    (Array (Rank2 path_graph)) (PointList {| adj := path_graph; p := None |} []) "ID"
  = MatricesMetric.geodesic 3 3 (Rank2 path_graph) (Rank3 [path_graph]).
Proof.
  apply (geodesic_id_is_metric_geodesic failing_solver MatricesMetric.init 3
           (Array (Rank2 path_graph))
           (PointList {| adj := path_graph; p := None |} []) 0).
  - simpl. lia.
  - discriminate.
  - reflexivity.
Defined.

(** ** The order of the arguments of [dist] *)

Section ArgumentOrder.
Variable quadratic_assignment : matrix -> matrix -> bool -> result (list nat).

(** X14: when its two arguments differ in their number of axes, [dist]
    gives the same result in either order, for every matcher name, solver,
    space and metric: the argument with fewer axes is the base both
    times. *)
Theorem dist_swap_ranks {curve : Type} (self : GraphSpaceGeometry.t curve)
    (graph_a graph_b : points) (matcher : string) :
  ndim (_input_manipulation graph_a) <> ndim (_input_manipulation graph_b) ->
  GraphSpaceGeometry.dist quadratic_assignment self graph_a graph_b matcher
  = GraphSpaceGeometry.dist quadratic_assignment self graph_b graph_a matcher.
Proof.
  unfold GraphSpaceGeometry.dist.
  generalize (_input_manipulation graph_a) as a.
  generalize (_input_manipulation graph_b) as b.
  intros b a Hne. destruct a, b; cbn in Hne; try contradiction; reflexivity.
Qed.

Lemma sum_squares_swap (l l' : list R) :
  sum_list (map (fun xy : R * R => (snd xy - fst xy) * (snd xy - fst xy))
                (combine l l'))
  = sum_list (map (fun xy : R * R => (snd xy - fst xy) * (snd xy - fst xy))
                  (combine l' l)).
Proof.
  revert l'; induction l as [|x l IH]; intros [|y l']; try reflexivity.
  cbn. rewrite IH. ring.
Qed.

Lemma frobenius_dist_swap (A B : matrix) :
  MatricesMetric.frobenius_dist A B = MatricesMetric.frobenius_dist B A.
Proof.
  unfold MatricesMetric.frobenius_dist. now rewrite sum_squares_swap.
Qed.

Lemma frobenius_dist_swap_batch (As Bs : list matrix) :
  map (fun AB : matrix * matrix =>
         MatricesMetric.frobenius_dist (fst AB) (snd AB)) (combine As Bs)
  = map (fun AB : matrix * matrix =>
           MatricesMetric.frobenius_dist (fst AB) (snd AB)) (combine Bs As).
Proof.
  revert Bs; induction As as [|A As IH]; intros [|B Bs]; try reflexivity.
  cbn. now rewrite IH, frobenius_dist_swap.
Qed.

Lemma matrices_metric_dist_swap (m n : nat) (a b : ndarray) :
  ndim a = ndim b ->
  MatricesMetric.dist m n a b = MatricesMetric.dist m n b a.
Proof.
  intros Hr. destruct a as [A|As], b as [B|Bs]; cbn in Hr; try discriminate.
  - cbn. now rewrite frobenius_dist_swap.
  - unfold MatricesMetric.dist, MatricesMetric.broadcast.
    rewrite (Nat.eqb_sym (length Bs)).
    destruct (length As =? length Bs)%nat; [|reflexivity].
    now rewrite frobenius_dist_swap_batch.
Qed.

(** X15: under the identity matcher and on the default space and metric,
    the distance between graphs of the space does not depend on the order
    of the two arguments, single graphs or batches that are not empty. *)
Theorem dist_id_symmetric (n : nat) (graph_a graph_b : points) (atol : R) :
  _input_manipulation graph_a <> Rank3 [] ->
  _input_manipulation graph_b <> Rank3 [] ->
  all_belong (graph_space n) graph_a atol = true ->
  all_belong (graph_space n) graph_b atol = true ->
  GraphSpaceGeometry.dist quadratic_assignment (graph_space_geometry n)
    graph_a graph_b "ID"
  = GraphSpaceGeometry.dist quadratic_assignment (graph_space_geometry n)
      graph_b graph_a "ID".
Proof.
  intros Hna Hnb Ha Hb.
  assert (Hd : forall x y : points,
    _input_manipulation x <> Rank3 [] ->
    _input_manipulation y <> Rank3 [] ->
    all_belong (graph_space n) x atol = true ->
    all_belong (graph_space n) y atol = true ->
    GraphSpaceGeometry.dist quadratic_assignment (graph_space_geometry n) x y "ID"
    = if (ndim (_input_manipulation y) <? ndim (_input_manipulation x))%nat
      then MatricesMetric.dist n n (_input_manipulation y) (_input_manipulation x)
      else MatricesMetric.dist n n (_input_manipulation x) (_input_manipulation y)).
  { intros x y Hnx Hny Hx Hy. unfold GraphSpaceGeometry.dist.
    destruct (Nat.ltb_spec (ndim (_input_manipulation y))
                           (ndim (_input_manipulation x))) as [Hlt|Hge].
    - apply (aligned_id quadratic_assignment MatricesMetric.init n _ _ atol);
        [lia|exact Hnx|exact Hx].
    - apply (aligned_id quadratic_assignment MatricesMetric.init n _ _ atol);
        [lia|exact Hny|exact Hy]. }
  rewrite (Hd graph_a graph_b Hna Hnb Ha Hb), (Hd graph_b graph_a Hnb Hna Hb Ha).
  destruct (Nat.ltb_spec (ndim (_input_manipulation graph_b))
                         (ndim (_input_manipulation graph_a))) as [Hlt|Hge];
    destruct (Nat.ltb_spec (ndim (_input_manipulation graph_a))
                           (ndim (_input_manipulation graph_b))) as [Hlt'|Hge'];
    try lia; try reflexivity.
  apply matrices_metric_dist_swap. lia.
Qed.

End ArgumentOrder.

Lemma dist_swap_ranks_witness :
  GraphSpaceGeometry.dist failing_solver (graph_space_geometry 3)
    (Array (Rank2 path_graph)) (Array (Rank3 [path_graph; path_graph])) "FAQ"
  = GraphSpaceGeometry.dist failing_solver (graph_space_geometry 3)
      (Array (Rank3 [path_graph; path_graph])) (Array (Rank2 path_graph)) "FAQ".
Proof.
  apply (dist_swap_ranks failing_solver (graph_space_geometry 3)
           (Array (Rank2 path_graph)) (Array (Rank3 [path_graph; path_graph]))
           "FAQ").
  discriminate.
Defined.

Lemma dist_id_symmetric_witness :
  GraphSpaceGeometry.dist failing_solver (graph_space_geometry 3)
    (Array (Rank2 path_graph)) (Array (Rank2 (transpose path_graph))) "ID"
  = GraphSpaceGeometry.dist failing_solver (graph_space_geometry 3)
      (Array (Rank2 (transpose path_graph))) (Array (Rank2 path_graph)) "ID".
Proof.
  apply (dist_id_symmetric failing_solver 3
           (Array (Rank2 path_graph)) (Array (Rank2 (transpose path_graph))) 0);
    try reflexivity; discriminate.
Defined.

(** ** The matchers and the ranks of their arguments *)

Section MatcherRanks.
Variable quadratic_assignment : matrix -> matrix -> bool -> result (list nat).

Lemma comprehension_total {A B : Type} (f : A -> result B) (l : list A) :
  (forall a, In a l -> exists b, f a = Ok b) ->
  exists bs, comprehension f l = Ok bs
             /\ length bs = length l
             /\ forall i d d', (i < length l)%nat -> f (nth i l d) = Ok (nth i bs d').
Proof.
  induction l as [|a l IH]; intros H.
  - exists []. repeat split. intros i d d' Hi. simpl in Hi. lia.
  - destruct (H a (or_introl eq_refl)) as [b Hb].
    destruct IH as [bs [Hc [Hl Hn]]]; [intros a' Ha'; apply H; now right|].
    exists (b :: bs). cbn. rewrite Hb, Hc. cbn.
    repeat split; [now rewrite Hl|].
    intros [|i] d d' Hi; [exact Hb|]. apply Hn. simpl in Hi. lia.
Qed.

(** X16: the arguments the matchers refuse: [id_matching] fails exactly
    when the base graph is a batch and the graph to permute a single graph;
    [faq_matching], when the solver answers on every pair, fails in that
    case and also on a single base graph with an empty batch, where
    [gs.stack] has nothing to stack.  Every one of these failures is a
    ValueError raised whatever the solver is, so before it is called. *)
Theorem matchers_failures {curve : Type}
    (self : GraphSpaceGeometry.t curve) (base_graph graph_to_permute : ndarray) :
  (forall x y, exists perm, quadratic_assignment x y true = Ok perm) ->
  ((exists e, GraphSpaceGeometry.id_matching self base_graph graph_to_permute
              = Raise e)
   <-> (ndim graph_to_permute < ndim base_graph)%nat)
  /\ ((exists e, GraphSpaceGeometry.faq_matching quadratic_assignment
                   base_graph graph_to_permute
                 = Raise e)
      <-> (ndim graph_to_permute < ndim base_graph)%nat
          \/ ((ndim base_graph < ndim graph_to_permute)%nat
              /\ graph_to_permute = Rank3 []))
  /\ ((ndim graph_to_permute < ndim base_graph)%nat ->
      exists msg_id msg_faq,
        GraphSpaceGeometry.id_matching self base_graph graph_to_permute
        = Raise (ValueError msg_id)
        /\ forall solver,
             GraphSpaceGeometry.faq_matching solver base_graph graph_to_permute
             = Raise (ValueError msg_faq))
  /\ ((ndim base_graph < ndim graph_to_permute)%nat ->
      graph_to_permute = Rank3 [] ->
      exists msg_faq,
        forall solver,
          GraphSpaceGeometry.faq_matching solver base_graph graph_to_permute
          = Raise (ValueError msg_faq)).
Proof.
  intros Htotal.
  assert (Hc : forall pairs : list (matrix * matrix),
    exists perms,
      comprehension
        (fun xy : matrix * matrix => quadratic_assignment (fst xy) (snd xy) true)
        pairs = Ok perms).
  { intros pairs.
    destruct (comprehension_total
                (fun xy : matrix * matrix =>
                   quadratic_assignment (fst xy) (snd xy) true) pairs)
      as [perms [H _]]; [intros a _; apply Htotal|now exists perms]. }
  destruct base_graph as [b|bs], graph_to_permute as [g|gs];
    cbn [GraphSpaceGeometry.id_matching GraphSpaceGeometry.faq_matching ndim len].
  - split; [|split; [|split]].
    + split; [intros [e He]; discriminate He|lia].
    + destruct (Htotal b g) as [perm ->].
      split; [intros [e He]; discriminate He|].
      intros [H|[_ H]]; [lia|discriminate H].
    + lia.
    + lia.
  - split; [|split; [|split]].
    + split; [intros [e He]; discriminate He|lia].
    + destruct gs as [|g gs].
      * split; [intros _; right; split; [lia|reflexivity]|].
        intros _. eexists. reflexivity.
      * cbn [length repeat gs_stack bind].
        destruct (Hc (zip (b :: repeat b (length gs)) (g :: gs))) as [perms ->].
        split; [intros [e He]; discriminate He|].
        intros [H|[_ H]]; [lia|discriminate H].
    + lia.
    + intros _ H. injection H as ->. eexists. intros solver. reflexivity.
  - split; [|split; [|split]].
    + split; [lia|]. intros _. eexists. reflexivity.
    + split; [intros _; left; lia|]. intros _. eexists. reflexivity.
    + intros _. eexists. eexists. split; [reflexivity|]. intros solver. reflexivity.
    + lia.
  - split; [|split; [|split]].
    + split; [intros [e He]; discriminate He|lia].
    + destruct (Hc (zip bs gs)) as [perms ->].
      split; [intros [e He]; discriminate He|].
      intros [H|[H _]]; lia.
    + lia.
    + lia.
Qed.

Lemma comprehension_zip (bases graphs : list matrix) :
  (forall i, (i < Nat.min (length bases) (length graphs))%nat ->
     exists perm,
       quadratic_assignment (nth i bases []) (nth i graphs []) true = Ok perm) ->
  exists perms : list (list nat),
    comprehension
      (fun xy : matrix * matrix => quadratic_assignment (fst xy) (snd xy) true)
      (combine bases graphs)
    = Ok perms
    /\ length perms = Nat.min (length bases) (length graphs)
    /\ forall i, (i < Nat.min (length bases) (length graphs))%nat ->
         quadratic_assignment (nth i bases []) (nth i graphs []) true
         = Ok (nth i perms []).
Proof.
  revert graphs; induction bases as [|b bases IH]; intros graphs H.
  - exists []. repeat split. intros i Hi. simpl in Hi. lia.
  - destruct graphs as [|g graphs].
    + exists []. repeat split. intros i Hi. simpl in Hi. lia.
    + destruct (H 0%nat ltac:(simpl; lia)) as [perm Hperm]. cbn [nth] in Hperm.
      destruct (IH graphs) as [perms [Hc [Hl Hn]]].
      { intros i Hi. apply (H (S i)). simpl. lia. }
      exists (perm :: perms). cbn. rewrite Hperm, Hc. cbn.
      repeat split; [now rewrite Hl|].
      intros [|i] Hi; [exact Hperm|]. apply Hn. lia.
Qed.

(** X17: [faq_matching] on two batches does not compare their lengths: when
    the solver answers on the pairs taken position by position, it returns
    as many permutations as the shorter batch has graphs, permutation [i]
    being the solver's answer on graph [i] of each batch. *)
Theorem faq_matching_truncates (bases graphs : list matrix) :
  (forall i, (i < Nat.min (length bases) (length graphs))%nat ->
     exists perm,
       quadratic_assignment (nth i bases []) (nth i graphs []) true = Ok perm) ->
  exists perms : list (list nat),
    GraphSpaceGeometry.faq_matching quadratic_assignment
      (Rank3 bases) (Rank3 graphs)
    = Ok perms
    /\ length perms = Nat.min (length bases) (length graphs)
    /\ forall i, (i < Nat.min (length bases) (length graphs))%nat ->
         quadratic_assignment (nth i bases []) (nth i graphs []) true
         = Ok (nth i perms []).
Proof. intros H. now apply comprehension_zip. Qed.

End MatcherRanks.

Lemma matchers_failures_witness :
  ((exists e, GraphSpaceGeometry.id_matching (graph_space_geometry 3)
                (Rank2 path_graph) (Rank3 [])
              = Raise e)
   <-> (ndim (Rank3 []) < ndim (Rank2 path_graph))%nat)
  /\ ((exists e, GraphSpaceGeometry.faq_matching natural_solver
                   (Rank2 path_graph) (Rank3 [])
                 = Raise e)
      <-> (ndim (Rank3 []) < ndim (Rank2 path_graph))%nat
          \/ ((ndim (Rank2 path_graph) < ndim (Rank3 []))%nat
              /\ Rank3 [] = Rank3 []))
  /\ ((ndim (Rank3 []) < ndim (Rank2 path_graph))%nat ->
      exists msg_id msg_faq,
        GraphSpaceGeometry.id_matching (graph_space_geometry 3)
          (Rank2 path_graph) (Rank3 [])
        = Raise (ValueError msg_id)
        /\ forall solver,
             GraphSpaceGeometry.faq_matching solver (Rank2 path_graph) (Rank3 [])
             = Raise (ValueError msg_faq))
  /\ ((ndim (Rank2 path_graph) < ndim (Rank3 []))%nat ->
      Rank3 [] = Rank3 [] ->
      exists msg_faq,
        forall solver,
          GraphSpaceGeometry.faq_matching solver (Rank2 path_graph) (Rank3 [])
          = Raise (ValueError msg_faq)).
Proof.
  apply (matchers_failures natural_solver (graph_space_geometry 3)
           (Rank2 path_graph) (Rank3 [])).
  intros x y. eexists. reflexivity.
Defined.

Lemma faq_matching_truncates_witness :
  exists perms : list (list nat),
    GraphSpaceGeometry.faq_matching natural_solver
      (Rank3 [path_graph; path_graph; path_graph]) (Rank3 [path_graph])
    = Ok perms
    /\ length perms
       = Nat.min (length [path_graph; path_graph; path_graph]) (length [path_graph])
    /\ forall i,
         (i < Nat.min (length [path_graph; path_graph; path_graph])
                      (length [path_graph]))%nat ->
         natural_solver (nth i [path_graph; path_graph; path_graph] [])
           (nth i [path_graph] []) true
         = Ok (nth i perms []).
Proof.
  apply (faq_matching_truncates natural_solver
           [path_graph; path_graph; path_graph] [path_graph]).
  intros i Hi. eexists. reflexivity.
Defined.

(** ** Permutations act by isometries *)

Lemma sum_list_app (l l' : list R) :
  sum_list (l ++ l') = sum_list l + sum_list l'.
Proof. induction l as [|x l IH]; simpl; [ring|]. rewrite IH. ring. Qed.

Lemma sum_list_concat (ll : list (list R)) :
  sum_list (concat ll) = sum_list (map sum_list ll).
Proof.
  induction ll as [|l ll IH]; simpl; [reflexivity|].
  now rewrite sum_list_app, IH.
Qed.

Lemma sum_list_Permutation (l l' : list R) :
  Permutation l l' -> sum_list l = sum_list l'.
Proof.
  induction 1 as [|x l l' _ IH|x y l|l l' l'' _ IH1 _ IH2]; simpl.
  - reflexivity.
  - now rewrite IH.
  - ring.
  - now rewrite IH1.
Qed.

Lemma is_permutation_Permutation (n : nat) (p : list nat) :
  is_permutation n p = true -> Permutation p (seq 0 n).
Proof.
  intros Hp. apply NoDup_Permutation.
  - now apply (is_permutation_NoDup n).
  - apply seq_NoDup.
  - intros x. split.
    + intros Hx. apply in_seq.
      pose proof (is_permutation_node_sequence n p Hp) as Hs.
      destruct (In_nth p x 0%nat Hx) as [k [Hk <-]].
      rewrite (node_sequence_length n p Hs) in Hk.
      pose proof (node_sequence_nth n p k Hs Hk). lia.
    + intros Hx. apply in_seq in Hx. apply (is_permutation_In n); [exact Hp|lia].
Qed.

(** A sum over the nodes can be read through a permutation of the nodes. *)
Lemma sum_list_reindex (n : nat) (p : list nat) (K : nat -> R) :
  is_permutation n p = true ->
  sum_list (map (fun i => K (nth i p 0%nat)) (seq 0 n))
  = sum_list (map K (seq 0 n)).
Proof.
  intros Hp.
  pose proof (node_sequence_length n p (is_permutation_node_sequence n p Hp)) as Hl.
  rewrite <- (map_map (fun i => nth i p 0%nat) K).
  rewrite <- Hl at 1. rewrite map_nth_seq.
  apply sum_list_Permutation. apply Permutation_map.
  now apply is_permutation_Permutation.
Qed.

Lemma combine_append {A B : Type} (l1 l2 : list A) (l1' l2' : list B) :
  length l1 = length l1' ->
  combine (l1 ++ l2) (l1' ++ l2') = (combine l1 l1' ++ combine l2 l2')%list.
Proof.
  revert l1'; induction l1 as [|a l1 IH]; intros [|b l1'] Hl;
    try discriminate; [reflexivity|].
  simpl. f_equal. apply IH. now injection Hl.
Qed.

Lemma combine_map_seq (f g : nat -> R) (l : list nat) :
  combine (map f l) (map g l) = map (fun j => (f j, g j)) l.
Proof. induction l as [|j l IH]; simpl; [reflexivity|]. now rewrite IH. Qed.

Lemma sum_squares_rows (rows cols : list nat) (f g : nat -> nat -> R) :
  sum_list (map (fun xy : R * R => (snd xy - fst xy) * (snd xy - fst xy))
                (combine (concat (map (fun i => map (f i) cols) rows))
                         (concat (map (fun i => map (g i) cols) rows))))
  = sum_list (map (fun i =>
                     sum_list (map (fun j => (g i j - f i j) * (g i j - f i j))
                                   cols))
                  rows).
Proof.
  induction rows as [|i rows IH]; [reflexivity|].
  cbn [map concat]. rewrite combine_append by (now rewrite !length_map).
  rewrite map_app, sum_list_app, IH. cbn [sum_list]. f_equal.
  rewrite combine_map_seq, map_map. reflexivity.
Qed.

(** The sum of the squared differences of two matrices built entry by
    entry, row after row. *)
Lemma sum_squares_build_matrix (n : nat) (f g : nat -> nat -> R) :
  sum_list (map (fun xy : R * R => (snd xy - fst xy) * (snd xy - fst xy))
                (combine (MatricesMetric.flat (build_matrix n n f))
                         (MatricesMetric.flat (build_matrix n n g))))
  = sum_list (map (fun i =>
                     sum_list (map (fun j => (g i j - f i j) * (g i j - f i j))
                                   (seq 0 n)))
                  (seq 0 n)).
Proof. apply sum_squares_rows. Qed.

Lemma sum_squares_has_shape (n : nat) (A B : matrix) :
  Matrices.has_shape n n A = true ->
  Matrices.has_shape n n B = true ->
  sum_list (map (fun xy : R * R => (snd xy - fst xy) * (snd xy - fst xy))
                (combine (MatricesMetric.flat A) (MatricesMetric.flat B)))
  = sum_list (map (fun i =>
                     sum_list (map (fun j => (entry B i j - entry A i j)
                                             * (entry B i j - entry A i j))
                                   (seq 0 n)))
                  (seq 0 n)).
Proof.
  intros HA HB.
  pose proof (sum_squares_build_matrix n (entry A) (entry B)) as H.
  rewrite (build_matrix_entry n n A HA), (build_matrix_entry n n B HB) in H.
  exact H.
Qed.

Lemma frobenius_dist_conjugate (n : nat) (A B : matrix) (perm : list nat) :
  Matrices.has_shape n n A = true ->
  Matrices.has_shape n n B = true ->
  is_permutation n perm = true ->
  MatricesMetric.frobenius_dist (conjugate n A perm) (conjugate n B perm)
  = MatricesMetric.frobenius_dist A B.
Proof.
  intros HA HB Hp.
  pose proof (is_permutation_node_sequence n perm Hp) as Hs.
  rewrite !conjugate_sequence by assumption.
  unfold MatricesMetric.frobenius_dist. f_equal.
  rewrite sum_squares_build_matrix, (sum_squares_has_shape n A B HA HB).
  rewrite <- (sum_list_reindex n perm
                (fun i => sum_list
                   (map (fun j => (entry B i j - entry A i j)
                                  * (entry B i j - entry A i j)) (seq 0 n))) Hp).
  f_equal. apply map_ext. intros i.
  apply (sum_list_reindex n perm
           (fun j => (entry B (nth i perm 0%nat) j - entry A (nth i perm 0%nat) j)
                     * (entry B (nth i perm 0%nat) j - entry A (nth i perm 0%nat) j))
           Hp).
Qed.

Section Isometry.
Variable quadratic_assignment : matrix -> matrix -> bool -> result (list nat).

(** X18: a permutation of the nodes acts by an isometry: two graphs of the
    space permuted by the same permutation are, under the identity matcher
    and on the default space and metric, at the distance of the two graphs
    themselves. *)
Theorem dist_id_permute_both (n : nat) (A B : matrix) (perm : list nat) (atol : R) :
  GraphSpace.belongs (graph_space n) (Array (Rank2 A)) atol = Ok (BoolScalar true) ->
  GraphSpace.belongs (graph_space n) (Array (Rank2 B)) atol = Ok (BoolScalar true) ->
  is_permutation n perm = true ->
  exists A' B' : matrix,
    GraphSpace.permute (graph_space n) (Array (Rank2 A)) perm = Ok (Rank2 A')
    /\ GraphSpace.permute (graph_space n) (Array (Rank2 B)) perm = Ok (Rank2 B')
    /\ GraphSpaceGeometry.dist quadratic_assignment (graph_space_geometry n)
         (Array (Rank2 A')) (Array (Rank2 B')) "ID"
       = GraphSpaceGeometry.dist quadratic_assignment (graph_space_geometry n)
           (Array (Rank2 A)) (Array (Rank2 B)) "ID".
Proof.
  intros HA HB Hp. apply belongs_has_shape in HA, HB.
  pose proof (is_permutation_node_sequence n perm Hp) as Hs.
  exists (conjugate n A perm), (conjugate n B perm).
  split; [apply permute_single_conjugate|].
  split; [apply permute_single_conjugate|].
  rewrite !(dist_single_conjugate quadratic_assignment n _ _ "ID" (range n))
    by (try reflexivity; now left).
  rewrite !conjugate_identity; try assumption.
  - now rewrite frobenius_dist_conjugate.
  - rewrite conjugate_sequence by assumption. apply has_shape_build_matrix.
Qed.

End Isometry.

Lemma dist_id_permute_both_witness :
  exists A' B' : matrix,
    GraphSpace.permute (graph_space 3) (Array (Rank2 path_graph)) [1; 2; 0]%nat
    = Ok (Rank2 A')
    /\ GraphSpace.permute (graph_space 3) (Array (Rank2 (transpose path_graph)))
         [1; 2; 0]%nat
       = Ok (Rank2 B')
    /\ GraphSpaceGeometry.dist failing_solver (graph_space_geometry 3)
         (Array (Rank2 A')) (Array (Rank2 B')) "ID"
       = GraphSpaceGeometry.dist failing_solver (graph_space_geometry 3)
           (Array (Rank2 path_graph)) (Array (Rank2 (transpose path_graph))) "ID".
Proof.
  apply (dist_id_permute_both failing_solver 3 path_graph (transpose path_graph)
           [1; 2; 0]%nat 0); reflexivity.
Defined.

(** ** The FAQ matcher on a permuted copy *)

Lemma conjugate_then_inverse (n : nat) (G : matrix) (perm : list nat) :
  Matrices.has_shape n n G = true ->
  is_permutation n perm = true ->
  conjugate n (conjugate n G perm) (inverse n perm) = G.
Proof.
  intros HG Hp.
  pose proof (is_permutation_node_sequence n perm Hp) as Hs.
  pose proof (is_permutation_node_sequence n _ (is_permutation_inverse n perm Hp))
    as Hsi.
  rewrite (conjugate_sequence n G perm HG Hs).
  rewrite conjugate_sequence by (try assumption; apply has_shape_build_matrix).
  transitivity (build_matrix n n (entry G)); [|now apply build_matrix_entry].
  apply build_matrix_ext. intros i j Hi Hj.
  rewrite entry_build_matrix by (now apply node_sequence_nth).
  rewrite !nth_inverse by assumption.
  destruct (index_of_In i perm (is_permutation_In n perm i Hp Hi)) as [_ ->].
  destruct (index_of_In j perm (is_permutation_In n perm j Hp Hj)) as [_ ->].
  reflexivity.
Qed.

Section Recovery.
Variable quadratic_assignment : matrix -> matrix -> bool -> result (list nat).

(** X19: when, for a graph of the space and its copy permuted by a
    permutation, the solver answers the inverse permutation, the distance
    between the two under the FAQ matcher is zero. *)
Theorem dist_faq_permuted_copy (n : nat) (G G' : matrix) (perm : list nat)
    (atol : R) :
  GraphSpace.belongs (graph_space n) (Array (Rank2 G)) atol = Ok (BoolScalar true) ->
  is_permutation n perm = true ->
  GraphSpace.permute (graph_space n) (Array (Rank2 G)) perm = Ok (Rank2 G') ->
  quadratic_assignment G G' true = Ok (inverse n perm) ->
  GraphSpaceGeometry.dist quadratic_assignment (graph_space_geometry n)
    (Array (Rank2 G)) (Array (Rank2 G')) "FAQ"
  = Ok (Scalar 0).
Proof.
  intros HG Hp Hperm Hsolver. apply belongs_has_shape in HG.
  rewrite permute_single_conjugate in Hperm. injection Hperm as <-.
  rewrite (dist_single_conjugate quadratic_assignment n _ _ "FAQ" (inverse n perm))
    by (try exact Hsolver; now right).
  rewrite conjugate_then_inverse by assumption.
  now rewrite frobenius_dist_self.
Qed.

End Recovery.

Lemma dist_faq_permuted_copy_witness :
  GraphSpaceGeometry.dist (fun _ _ _ => Ok (inverse 3 [1; 2; 0]%nat))
    (graph_space_geometry 3)
    (Array (Rank2 path_graph)) (Array (Rank2 [[0; 1; 0]; [0; 0; 0]; [1; 0; 0]]))
    "FAQ"
  = Ok (Scalar 0).
Proof.
  apply (dist_faq_permuted_copy (fun _ _ _ => Ok (inverse 3 [1; 2; 0]%nat))
           3 path_graph [[0; 1; 0]; [0; 0; 0]; [1; 0; 0]] [1; 2; 0]%nat 0).
  - reflexivity.
  - reflexivity.
  - rewrite permute_entries by reflexivity. reflexivity.
  - reflexivity.
Defined.

(** ** The squeezing decisions on small inputs *)

Example squeeze_output_dim_0_unbatched :
  Vectorization.squeeze_output_dim_0 [Some [3%nat]; None; Some [2%nat; 2%nat]]
    ["vector"; "else"; "matrix"]
  = Vectorization.Return true.
Proof. reflexivity. Qed.

Example squeeze_output_dim_0_batched :
  Vectorization.squeeze_output_dim_0
    [Some [3%nat]; Some [5%nat; 2%nat; 2%nat]; Some [1%nat; 2%nat; 3%nat; 4%nat]]
    ["vector"; "matrix"; "matrix"]
  = Vectorization.Return false.
Proof. reflexivity. Qed.

Example squeeze_output_dim_0_too_many_axes :
  Vectorization.squeeze_output_dim_0 [Some [1%nat; 2%nat; 3%nat]] ["vector"]
  = Vectorization.Throw Vectorization.AssertionError.
Proof. reflexivity. Qed.

Example squeeze_output_dim_0_unknown_type :
  Vectorization.squeeze_output_dim_0 [Some [3%nat]] ["point"]
  = Vectorization.Throw (Vectorization.KeyError "point").
Proof. reflexivity. Qed.

Example squeeze_output_dim_1_scalar_column :
  Vectorization.squeeze_output_dim_1 [4%nat; 1%nat] [Some [4%nat; 1%nat]] ["scalar"]
  = Vectorization.Return false
  /\ Vectorization.squeeze_output_dim_1 [4%nat; 1%nat] [Some [4%nat]] ["scalar"]
     = Vectorization.Return true.
Proof. split; reflexivity. Qed.
